(** * project-bundler: a shallow embedding of main.go

    The configuration tables, the helpers [mergeMaps], [detectProjectType]
    and [isBinaryFile], and the [filepath.WalkDir] callback of [main] are
    translated from main.go.  Go maps are stdpp [gmap]s, string sets are
    [gset]s, file contents are lists of bytes.  The filesystem is a tree of
    nodes whose I/O outcomes (open, first read, full read, directory
    listing) are part of the node, so that a run is a function of the
    filesystem state.  The [filepath.WalkDir] driver of the Go standard
    library is translated as well, since the pruning and error behaviour
    of the walk depends on it. *)

From Stdlib Require Import String Ascii List.
From Stdlib Require Import Init.Byte.
From stdpp Require Import base gmap sets list strings sorting.
Import ListNotations.
Open Scope string_scope.
Open Scope list_scope.

(* ------------------------------------------------------------------ *)
(** ** Configuration section (main.go lines 17-93) *)

Record ProjectConfig := {
  IgnoreDirs : list string;
  IgnoreExts : list string;
  LangMap : gmap string string
}.

Definition baseLangMap : gmap string string :=
  list_to_map [(".md", "markdown"); (".sh", "shell"); (".json", "json");
               (".yml", "yaml"); (".yaml", "yaml"); (".toml", "toml");
               (".txt", "text"); (".gitignore", "text"); (".proto", "protobuf")].

Definition filenameLangMap : gmap string string :=
  list_to_map [("Dockerfile", "dockerfile"); ("Makefile", "makefile");
               ("go.mod", "go-mod"); ("go.sum", "text"); ("LICENSE", "text");
               ("README", "markdown")].

(** A preset without a [LangMap] field has Go's nil map, which ranges as
    the empty map. *)
Definition projectConfigs : gmap string ProjectConfig :=
  list_to_map [
    ("generic", {| IgnoreDirs := [".git"];
                   IgnoreExts := [".DS_Store"; ".log"; ".lock"];
                   LangMap := ∅ |});
    ("android", {| IgnoreDirs := [".git"; ".idea"; "build"; ".gradle"; "gradle"];
                   IgnoreExts := [".DS_Store"; ".iml"; ".jar"; ".keystore"; ".jks";
                                  ".apk"; ".aab"; ".so"; ".png"; ".jpg"; ".jpeg";
                                  ".gif"; ".webp"];
                   LangMap := list_to_map [(".java", "java"); (".kt", "kotlin");
                                           (".kts", "kotlin"); (".xml", "xml");
                                           (".gradle", "groovy"); (".pro", "text")] |});
    ("go", {| IgnoreDirs := [".git"; "vendor"; "build"];
              IgnoreExts := [".DS_Store"; ".exe"; ".so"; ".a"];
              LangMap := list_to_map [(".go", "go")] |});
    ("rust", {| IgnoreDirs := [".git"; "target"];
                IgnoreExts := [".DS_Store"; ".rlib"; ".so"; ".a"; ".exe"];
                LangMap := list_to_map [(".rs", "rust")] |});
    ("ios", {| IgnoreDirs := [".git"; ".idea"; "Pods"; "build"; "DerivedData";
                              ".swiftpm"; "Carthage"];
               IgnoreExts := [".DS_Store"; ".mobileprovision"; ".app"; ".ipa";
                              ".car"; ".xcassets"; ".storyboardc"; ".nib"; ".png";
                              ".jpg"; ".jpeg"];
               LangMap := list_to_map [(".swift", "swift"); (".m", "objectivec");
                                       (".h", "objectivec"); (".storyboard", "xml");
                                       (".xib", "xml"); (".plist", "xml")] |})].

(* ------------------------------------------------------------------ *)
(** ** Helper functions (main.go lines 95-148) *)

(** [newStringSet] inserts every item; [Contains] is map membership. *)
Definition newStringSet (items : list string) : gset string :=
  fold_left (fun s item => {[item]} ∪ s) items ∅.

Definition Contains (s : gset string) (item : string) : bool :=
  bool_decide (item ∈ s).

(** [mergeMaps]: for each map in turn, [result[k] = v] for every entry.
    The Go range order over [m] is unspecified; [map_fold] fixes one, and
    each key occurs once in [m]. *)
Definition mergeMaps (maps : list (gmap string string)) : gmap string string :=
  fold_left (fun result m => map_fold (fun k v acc => <[k := v]> acc) result m)
            maps ∅.

Definition landmarkFiles : list (string * string) :=
  [("go.mod", "go"); ("Cargo.toml", "rust"); ("build.gradle", "android");
   ("Package.swift", "ios"); ("Podfile", "ios")].

(** The filesystem as [detectProjectType] sees it: the order in which the
    Go runtime ranges over the [landmarkFiles] map (a permutation of it),
    whether [os.Stat] of a file under [srcDir] succeeds, and the matches of
    the glob [srcDir/*.xcodeproj]. *)
Record DetectEnv := {
  landmarkOrder : list (string * string);
  statOk : string -> bool;
  xcodeprojMatches : list string
}.

Fixpoint firstLandmark (statOk : string -> bool) (order : list (string * string))
  : option string :=
  match order with
  | [] => None
  | (landmark, projectType) :: rest =>
      if statOk landmark then Some projectType else firstLandmark statOk rest
  end.

Definition detectProjectType (env : DetectEnv) : string :=
  match firstLandmark (statOk env) (landmarkOrder env) with
  | Some projectType => projectType
  | None => if (0 <? List.length (xcodeprojMatches env))%nat then "ios" else "generic"
  end.

(* ------------------------------------------------------------------ *)
(** ** Files and the binary detector (main.go lines 150-170) *)

(** The outcome of an I/O call: a value, or an error other than [io.EOF]. *)
Inductive IOResult (A : Type) :=
| IOOk (a : A)
| IOError.
Arguments IOOk {A} a.
Arguments IOError {A}.

(** A regular file: its bytes, whether [os.Open] succeeds, what the first
    [Read] call does ([Some k]: it delivers at most [k] bytes, ending with
    [nil] or [io.EOF]; [None]: it fails with another error), and whether
    [os.ReadFile] succeeds. *)
Record FileData := {
  fd_bytes : list byte;
  fd_open_ok : bool;
  fd_read_chunk : option nat;
  fd_readfile_ok : bool
}.

(** [file.Read(buffer)] on a fresh file and a buffer of [len] bytes: the
    number [n] of bytes copied into the buffer from the start of the file. *)
Definition file_Read (fd : FileData) (len : nat) : IOResult nat :=
  match fd_read_chunk fd with
  | Some k => IOOk (Nat.min len (Nat.min k (List.length (fd_bytes fd))))
  | None => IOError
  end.

(** [bytes.Contains(readBytes, []byte{0})] *)
Definition containsZero (bs : list byte) : bool :=
  existsb (fun b => Byte.eqb b x00) bs.

Definition isBinaryFile (fd : FileData) : IOResult bool :=
  if negb (fd_open_ok fd) then IOError else
  let buffer_len := 1024%nat in
  match file_Read fd buffer_len with
  | IOError => IOError
  | IOOk n =>
      let readBytes := firstn n (fd_bytes fd) in
      IOOk (containsZero readBytes)
  end.

Definition os_ReadFile (fd : FileData) : IOResult (list byte) :=
  if fd_readfile_ok fd then IOOk (fd_bytes fd) else IOError.

(** A regular file on a local filesystem: every call succeeds and the
    first [Read] fills the buffer as far as the file allows. *)
Definition regularFile (bs : list byte) : FileData :=
  {| fd_bytes := bs; fd_open_ok := true;
     fd_read_chunk := Some (List.length bs); fd_readfile_ok := true |}.

(* ------------------------------------------------------------------ *)
(** ** Paths and [filepath.Ext] *)

(** A path is its list of components: [filepath.Join(p, name)] is
    [p ++ [name]] and the source root "." is [[]]. *)
Abbreviation path := (list string).

(** [filepath.Rel(root, p)] for a [p] produced by the walk below [root]. *)
Definition filepath_Rel (root p : path) : option path :=
  if bool_decide (root `prefix_of` p) then Some (drop (List.length root) p)
  else None.

Definition pathString (p : path) : string :=
  match p with
  | [] => "."
  | _ => String.concat "/" p
  end.

(** [filepath.Ext]:
    [for i := len(path) - 1; i >= 0 && !os.IsPathSeparator(path[i]); i--]
    [{ if path[i] == '.' { return path[i:] } }; return ""] *)
Fixpoint ext_loop (i : nat) (s : string) : string :=
  match i with
  | O => ""
  | S j =>
      match String.get j s with
      | Some c =>
          if Ascii.eqb c "/" then ""
          else if Ascii.eqb c "." then substring j (String.length s - j) s
          else ext_loop j s
      | None => ""
      end
  end.

Definition filepath_Ext (name : string) : string :=
  ext_loop (String.length name) name.

(* ------------------------------------------------------------------ *)
(** ** The filesystem tree and [os.ReadDir] *)

(** A directory entry: a regular file, or a directory with whether
    [os.ReadDir] on it succeeds and its entries in storage order. *)
#[warnings="-register-all"]
Inductive node :=
| File (name : string) (fd : FileData)
| Dir (name : string) (readdir_ok : bool) (children : list node).

Definition node_name (n : node) : string :=
  match n with File nm _ => nm | Dir nm _ _ => nm end.

Definition name_le (a b : node) : Prop := String.le (node_name a) (node_name b).

Global Instance name_le_dec : RelDecision name_le.
Proof. intros a b. unfold name_le. apply _. Defined.

(** [os.ReadDir] returns the entries sorted by filename. *)
Definition ReadDir (entries : list node) : list node := merge_sort name_le entries.

(** The tree as the walk sees it through [os.ReadDir]: every directory's
    entries in the order [os.ReadDir] returns them. *)
Fixpoint view (n : node) : node :=
  match n with
  | File nm fd => File nm fd
  | Dir nm ok kids => Dir nm ok (ReadDir (map view kids))
  end.

(* ------------------------------------------------------------------ *)
(** ** The output writer ([bufio.NewWriter] over the output file) *)

(** [bufio.Writer] with its default 4096-byte buffer: the number of bytes
    buffered, its sticky error, and whether the output file accepts writes
    (an output device that rejects every write, e.g. a full disk, has
    [w_dev_ok = false]). *)
Record Writer := {
  w_buffered : nat;
  w_err : bool;
  w_dev_ok : bool
}.

Definition bufSize : nat := 4096.

(** [bufio.Writer.Write] / [WriteString] of [len] bytes.  While [len]
    exceeds the free space: with an empty buffer the bytes go straight to
    the file, otherwise the buffer is filled and flushed; the rest is
    buffered.  A failed file write sets the sticky error. *)
Definition writer_Write (w : Writer) (len : nat) : Writer * bool :=
  if w_err w then (w, false)
  else if (len <=? bufSize - w_buffered w)%nat then
    ({| w_buffered := w_buffered w + len; w_err := false; w_dev_ok := w_dev_ok w |}, true)
  else if w_dev_ok w then
    let rest := (w_buffered w + len - bufSize)%nat in
    let n := if (w_buffered w =? 0)%nat then 0%nat
             else if (rest <=? bufSize)%nat then rest else 0%nat in
    ({| w_buffered := n; w_err := false; w_dev_ok := true |}, true)
  else ({| w_buffered := w_buffered w; w_err := true; w_dev_ok := false |}, false).

(* ------------------------------------------------------------------ *)
(** ** State of a run *)

(** The I/O actions of a run, in order: a call of the walk callback on a
    path, [os.ReadDir] of a directory, the [isBinaryFile] open-and-read of
    a file, [os.ReadFile] of a file, and a [log.Printf] about a file. *)
Inductive Event :=
| EvVisit (p : path)
| EvReadDir (p : path)
| EvOpen (p : path)
| EvReadFile (p : path)
| EvLog (p : path).

Record BundleRecord := {
  relativePath : path;
  languageTag : string;
  content : list byte
}.

(** [skippedFiles] is the skip ledger; [bundled] the records written to the
    output; [trace] the I/O actions. *)
Record State := {
  skippedFiles : gmap string (list path);
  bundled : list BundleRecord;
  trace : list Event;
  writer : Writer
}.

Definition emit (e : Event) (s : State) : State :=
  {| skippedFiles := skippedFiles s; bundled := bundled s;
     trace := trace s ++ [e]; writer := writer s |}.

(** [skippedFiles[reason] = append(skippedFiles[reason], path)] *)
Definition appendSkip (reason : string) (p : path) (s : State) : State :=
  {| skippedFiles := <[reason := default [] (skippedFiles s !! reason) ++ [p]]>
                       (skippedFiles s);
     bundled := bundled s; trace := trace s; writer := writer s |}.

Definition setWriter (w : Writer) (s : State) : State :=
  {| skippedFiles := skippedFiles s; bundled := bundled s;
     trace := trace s; writer := w |}.

Definition addRecord (r : BundleRecord) (s : State) : State :=
  {| skippedFiles := skippedFiles s; bundled := bundled s ++ [r];
     trace := trace s; writer := writer s |}.

Definition emptyState (w : Writer) : State :=
  {| skippedFiles := ∅; bundled := []; trace := []; writer := w |}.

(** Errors that end the walk. *)
Inductive WalkErr :=
| ErrLstat                (* os.Lstat of the root failed *)
| ErrReadDir (p : path)   (* os.ReadDir of a directory failed *)
| ErrWrite.               (* writing a record to the output failed *)

Record Config := {
  ignoreDirs : gset string;
  ignoreExts : gset string;
  langMap : gmap string string
}.

(** The walk's configuration (main.go lines 198-200). *)
Definition resolveConfig (pc : ProjectConfig) : Config :=
  {| ignoreDirs := newStringSet (IgnoreDirs pc);
     ignoreExts := newStringSet (IgnoreExts pc);
     langMap := mergeMaps [baseLangMap; LangMap pc] |}.

(* ------------------------------------------------------------------ *)
(** ** The walk callback (main.go lines 216-286) *)

(** Lines 258-266: by extension, then by full filename, then "text". *)
Definition langOf (langMap : gmap string string) (ext name : string) : string :=
  match langMap !! ext with
  | Some lang => lang
  | None =>
      match filenameLangMap !! name with
      | Some lang => lang
      | None => "text"
      end
  end.

Definition nl : string := String (ascii_of_nat 10) "".

(** Lines 274 and 281: the header and the closing fence. *)
Definition header (relativePath : path) (lang : string) : string :=
  ("File: /" ++ pathString relativePath ++ nl ++ "```" ++ lang ++ nl)%string.

Definition footer : string := (nl ++ "```" ++ nl ++ nl)%string.

(** The callback on a file [d] at [p] (lines 230-285). *)
Definition visitFile (cfg : Config) (root p : path) (name : string) (fd : FileData)
    (s : State) : State * option WalkErr :=
  let ext := filepath_Ext name in
  if Contains (ignoreExts cfg) ext || Contains (ignoreExts cfg) name then
    (appendSkip "Ignored Extension/File" p s, None)
  else
  let s := emit (EvOpen p) s in
  match isBinaryFile fd with
  | IOError => (emit (EvLog p) (appendSkip "File Read Error" p s), None)
  | IOOk true => (appendSkip "Detected Binary Content" p s, None)
  | IOOk false =>
      let s := emit (EvReadFile p) s in
      match os_ReadFile fd with
      | IOError => (emit (EvLog p) (appendSkip "File Read Error" p s), None)
      | IOOk content =>
          let lang := langOf (langMap cfg) ext name in
          let relativePath :=
            match filepath_Rel root p with Some r => r | None => p end in
          let (w1, ok1) := writer_Write (writer s) (String.length (header relativePath lang)) in
          if negb ok1 then (setWriter w1 s, Some ErrWrite) else
          let (w2, ok2) := writer_Write w1 (List.length content) in
          if negb ok2 then (setWriter w2 s, Some ErrWrite) else
          let (w3, ok3) := writer_Write w2 (String.length footer) in
          if negb ok3 then (setWriter w3 s, Some ErrWrite) else
          (addRecord {| relativePath := relativePath; languageTag := lang;
                        content := content |} (setWriter w3 s), None)
      end
  end.

(** The loop of [walkDir] over the listed entries: each entry is walked at
    [filepath.Join(path, name)], stopping at the first error. *)
Fixpoint walkEntries (walk : path -> node -> State -> State * option WalkErr)
    (p : path) (entries : list node) (s : State) : State * option WalkErr :=
  match entries with
  | [] => (s, None)
  | c :: rest =>
      match walk (p ++ [node_name c]) c s with
      | (s', None) => walkEntries walk p rest s'
      | r => r
      end
  end.

(** [filepath.WalkDir]'s [walkDir] with the callback of [main]: the
    callback runs on the entry; a directory it does not skip is listed with
    [os.ReadDir] and its entries are walked.  A failed [os.ReadDir] calls
    the callback a second time with the error, which the callback returns
    (lines 217-219).  A directory whose name is in [ignoreDirs] is recorded
    and [filepath.SkipDir] is returned (lines 222-226), which [walkDir]
    turns into success without listing the directory. *)
Fixpoint walkDir (cfg : Config) (root p : path) (n : node) (s : State)
    : State * option WalkErr :=
  let s := emit (EvVisit p) s in
  match n with
  | File name fd => visitFile cfg root p name fd s
  | Dir name ok kids =>
      if Contains (ignoreDirs cfg) name then
        (appendSkip "Ignored Directory" p s, None)
      else
      let s := emit (EvReadDir p) s in
      if negb ok then (emit (EvVisit p) s, Some (ErrReadDir p))
      else walkEntries (walkDir cfg root) p kids s
  end.

(** [filepath.WalkDir(root, fn)]: [os.Lstat] of the root ([None] when it
    fails, and the callback returns the error), then [walkDir] on the tree
    as [os.ReadDir] presents it. *)
Definition WalkDir (cfg : Config) (root : path) (rootNode : option node) (w : Writer)
    : State * option WalkErr :=
  match rootNode with
  | None => (emptyState w, Some ErrLstat)
  | Some t => walkDir cfg root root (view t) (emptyState w)
  end.

(* ------------------------------------------------------------------ *)
(** ** main (lines 174-309) *)

Inductive FatalErr :=
| InvalidProjectType (projectType : string)
| CreateOutputFailed
| WalkFailed (e : WalkErr).

Inductive Outcome :=
| Fatal (e : FatalErr)
| Completed (s : State).

(** Lines 188-196. *)
Definition finalProjectType (projectType : string) (env : DetectEnv) : string :=
  if String.eqb projectType "auto" then detectProjectType env else projectType.

Definition loadConfig (projectType : string) (env : DetectEnv) : option ProjectConfig :=
  projectConfigs !! finalProjectType projectType env.

(** [bufio.NewWriter(file)]: an empty buffer and no error. *)
Definition newWriter (devOk : bool) : Writer :=
  {| w_buffered := 0; w_err := false; w_dev_ok := devOk |}.

(** [main] with its flags [-type] and [-src], the detection environment,
    whether [os.Create] of the output succeeds, the source tree ([None] when
    [os.Lstat] of [-src] fails) and whether the output file accepts writes. *)
Definition main (projectType : string) (env : DetectEnv) (createOk : bool)
    (srcDir : path) (tree : option node) (devOk : bool) : Outcome :=
  match loadConfig projectType env with
  | None => Fatal (InvalidProjectType (finalProjectType projectType env))
  | Some pc =>
      let cfg := resolveConfig pc in
      if negb createOk then Fatal CreateOutputFailed else
      match WalkDir cfg srcDir tree (newWriter devOk) with
      | (_, Some e) => Fatal (WalkFailed e)
      | (s, None) => Completed s
      end
  end.

(* ------------------------------------------------------------------ *)
(** ** Positions in the tree *)

(** [node_at n r m]: following the names [r] from [n] reaches entry [m]. *)
Inductive node_at : node -> path -> node -> Prop :=
| at_here n : node_at n [] n
| at_child nm ok kids c r m :
    In c kids -> node_at c r m -> node_at (Dir nm ok kids) (node_name c :: r) m.

(** [reach cfg n r m]: as [node_at], through directories the walk enters
    (their names are not in [ignoreDirs]). *)
Inductive reach (cfg : Config) : node -> path -> node -> Prop :=
| reach_here n : reach cfg n [] n
| reach_child nm ok kids c r m :
    nm ∉ ignoreDirs cfg -> In c kids -> reach cfg c r m ->
    reach cfg (Dir nm ok kids) (node_name c :: r) m.

(** Entry names are unique within every directory. *)
Fixpoint wfb (n : node) : bool :=
  match n with
  | File _ _ => true
  | Dir _ _ kids =>
      bool_decide (NoDup (map node_name kids)) && forallb wfb kids
  end.

Definition wf (n : node) : Prop := wfb n = true.

(** Two trees with the same contents, whose directories may store their
    entries in different orders. *)
#[warnings="-register-all"]
Inductive same_contents : node -> node -> Prop :=
| same_file nm fd : same_contents (File nm fd) (File nm fd)
| same_dir nm ok kids1 kids1' kids2 :
    Forall2 same_contents kids1 kids1' -> Permutation kids1' kids2 ->
    same_contents (Dir nm ok kids1) (Dir nm ok kids2).

Definition event_path (e : Event) : path :=
  match e with
  | EvVisit p | EvReadDir p | EvOpen p | EvReadFile p | EvLog p => p
  end.

Definition ledger_has (s : State) (reason : string) (q : path) : Prop :=
  exists ps, skippedFiles s !! reason = Some ps /\ In q ps.

(** Directories are recorded as ignored directories, files under the other
    reasons. *)
Definition kind_ok (reason : string) (m : node) : Prop :=
  match m with
  | Dir _ _ _ => reason = "Ignored Directory"
  | File _ _ => reason <> "Ignored Directory"
  end.

Definition relPath (root q : path) : path :=
  match filepath_Rel root q with Some r => r | None => q end.

(** What a step of the walk from [s] to [s'] adds: events on, records for
    and ledger entries of positions allowed by [A]. *)
Definition adds_only (A : path -> node -> Prop) (root : path) (s s' : State) : Prop :=
  (exists evs, trace s' = trace s ++ evs /\
     forall ev, In ev evs -> exists m, A (event_path ev) m) /\
  (exists rs, bundled s' = bundled s ++ rs /\
     forall rec, In rec rs ->
       exists q nm fd, relativePath rec = relPath root q /\ A q (File nm fd)) /\
  (forall reason q, ledger_has s' reason q ->
     ledger_has s reason q \/ exists m, A q m /\ kind_ok reason m).

(* ------------------------------------------------------------------ *)
(** ** Sample inputs *)

(** The walk configuration of a preset ([resolveConfig] of an empty preset
    for an unknown name). *)
Definition presetConfig (projectType : string) : Config :=
  resolveConfig (default {| IgnoreDirs := []; IgnoreExts := []; LangMap := ∅ |}
                         (projectConfigs !! projectType)).

(** 2000 bytes 'A' followed by a zero byte at offset 2000. *)
Definition lateZeroFile : FileData := regularFile (repeat x41 2000 ++ [x00]).

(** A zero byte at offset 1000. *)
Definition earlyZeroFile : FileData := regularFile (repeat x41 1000 ++ [x00] ++ repeat x41 1000).

Definition textFile : FileData := regularFile [x61; x62; x0a].

(* ------------------------------------------------------------------ *)
(** ** The skipped-files report (main.go lines 292-306) *)

(** The texts printed when [-report-skipped] is set, one per [fmt] call,
    with [order] the order in which Go ranges over [skippedFiles] (a
    permutation of its entries). *)
Definition reportLines (reportSkipped : bool) (skippedFiles : gmap string (list path))
    (order : list (string * list path)) : list string :=
  if negb reportSkipped then [] else
  [(nl ++ "--- Skipped Files Report ---" ++ nl)%string] ++
  (if (size skippedFiles =? 0)%nat then [("No files were skipped." ++ nl)%string]
   else flat_map (fun '(reason, paths) =>
          (nl ++ "Reason: " ++ reason ++ nl)%string ::
          map (fun p => ("  - " ++ pathString p ++ nl)%string) paths) order) ++
  [("--------------------------" ++ nl)%string].

(** Lines 175-178: the keys of [projectConfigs] in the order [order] in
    which Go ranges over the map (a permutation of its entries). *)
Definition availableTypes (order : list (string * ProjectConfig)) : list string :=
  map fst order.

(** The preset of a project type (an empty one for an unknown name). *)
Definition preset (projectType : string) : ProjectConfig :=
  default {| IgnoreDirs := []; IgnoreExts := []; LangMap := ∅ |}
          (projectConfigs !! projectType).

(* ------------------------------------------------------------------ *)
(** ** Notions used to state properties of a run *)

(** Lexical order of paths, element by element, as [filepath.WalkDir]
    visits them. *)
Fixpoint path_lt (a b : path) : Prop :=
  match a, b with
  | [], _ :: _ => True
  | x :: a', y :: b' => (String.le x y /\ x <> y) \/ (x = y /\ path_lt a' b')
  | _, _ => False
  end.

(** A record made from the file [name] with data [fd]: the file passed
    the extension and name filter, the detector judged it text, and the
    record holds the whole content and the resolved language. *)
Definition bundled_from (cfg : Config) (name : string) (fd : FileData)
    (rec : BundleRecord) : Prop :=
  Contains (ignoreExts cfg) (filepath_Ext name) = false /\
  Contains (ignoreExts cfg) name = false /\
  isBinaryFile fd = IOOk false /\
  os_ReadFile fd = IOOk (content rec) /\
  languageTag rec = langOf (langMap cfg) (filepath_Ext name) name.

(** The reasons the callback records. *)
Definition skipReasons : list string :=
  ["Ignored Directory"; "Ignored Extension/File"; "File Read Error";
   "Detected Binary Content"].

(** Every reason in the ledger is one of them, with at least one path. *)
Definition ledger_ok (s : State) : Prop :=
  map_Forall (fun reason ps => In reason skipReasons /\ ps <> []) (skippedFiles s).

(** The position [q] got an outcome: a record, or a ledger entry. *)
Definition handled (root : path) (s : State) (q : path) : Prop :=
  (exists rec, In rec (bundled s) /\ relativePath rec = relPath root q) \/
  (exists reason, ledger_has s reason q).

(** From [s] to [s'] records are only appended and ledger entries kept. *)
Definition grows (s s' : State) : Prop :=
  (exists rs, bundled s' = bundled s ++ rs) /\
  (forall reason q, ledger_has s reason q -> ledger_has s' reason q).

(* ================================================================== *)
(** * Proofs *)

(** ** The binary detector *)

Lemma containsZero_In (bs : list byte) : containsZero bs = true <-> In x00 bs.
Proof.
  unfold containsZero. rewrite existsb_exists. split.
  - intros (b & Hin & Heq). apply Byte.byte_dec_bl in Heq. subst. exact Hin.
  - intros Hin. exists x00. split; [exact Hin | apply Byte.byte_dec_lb; reflexivity].
Qed.

(** [file.Read] copies no more bytes than the buffer holds or the file has. *)
Lemma file_Read_le (fd : FileData) (len n : nat) :
  file_Read fd len = IOOk n -> (n <= len)%nat /\ (n <= List.length (fd_bytes fd))%nat.
Proof.
  unfold file_Read. destruct (fd_read_chunk fd); [|discriminate].
  intros H. injection H as <-. lia.
Qed.

(** C1: the detector looks at the bytes the first read delivers, the
    first [n] bytes of the file for the count [n] that [file.Read] returns
    into the 1024-byte buffer: a zero byte among them makes the file
    binary, none makes it text; no zero byte in the first 1024 bytes makes
    it text whatever follows, and an empty file is text. *)
Theorem isBinaryFile_first_1024 (fd : FileData) (n : nat)
    (Hopen : fd_open_ok fd = true) (Hread : file_Read fd 1024 = IOOk n) :
  (n <= 1024)%nat /\ (n <= List.length (fd_bytes fd))%nat /\
  (In x00 (firstn n (fd_bytes fd)) -> isBinaryFile fd = IOOk true) /\
  (~ In x00 (firstn n (fd_bytes fd)) -> isBinaryFile fd = IOOk false) /\
  (~ In x00 (firstn 1024 (fd_bytes fd)) -> isBinaryFile fd = IOOk false) /\
  (fd_bytes fd = [] -> isBinaryFile fd = IOOk false).
Proof.
  assert (Hbin : isBinaryFile fd = IOOk (containsZero (firstn n (fd_bytes fd)))).
  { unfold isBinaryFile. rewrite Hopen, Hread. reflexivity. }
  assert (Hn : (n <= 1024)%nat /\ (n <= List.length (fd_bytes fd))%nat).
  { exact (file_Read_le fd 1024 n Hread). }
  rewrite Hbin. split; [apply Hn|]. split; [apply Hn|].
  split; [|split; [|split]].
  - intros H. apply containsZero_In in H. rewrite H. reflexivity.
  - intros H. destruct (containsZero _) eqn:E; [|reflexivity].
    apply containsZero_In in E. contradiction.
  - intros Hno. destruct (containsZero _) eqn:E; [|reflexivity].
    apply containsZero_In in E. exfalso. apply Hno.
    replace (firstn n (fd_bytes fd)) with (firstn n (firstn 1024 (fd_bytes fd))) in E.
    + rewrite <- (firstn_skipn n (firstn 1024 (fd_bytes fd))). apply in_or_app. left. exact E.
    + rewrite firstn_firstn. f_equal. lia.
  - intros He. rewrite He. destruct n; reflexivity.
Qed.

Lemma isBinaryFile_first_1024_witness :
  fd_open_ok earlyZeroFile = true /\ file_Read earlyZeroFile 1024 = IOOk 1024 /\
  In x00 (firstn 1024 (fd_bytes earlyZeroFile)) /\
  isBinaryFile earlyZeroFile = IOOk true /\
  fd_open_ok lateZeroFile = true /\ file_Read lateZeroFile 1024 = IOOk 1024 /\
  ~ In x00 (firstn 1024 (fd_bytes lateZeroFile)) /\
  isBinaryFile lateZeroFile = IOOk false.
Proof.
  assert (Ho1 : fd_open_ok earlyZeroFile = true) by reflexivity.
  assert (Hr1 : file_Read earlyZeroFile 1024 = IOOk 1024) by (vm_compute; reflexivity).
  assert (Hz1 : In x00 (firstn 1024 (fd_bytes earlyZeroFile))).
  { apply containsZero_In. vm_compute. reflexivity. }
  assert (Ho2 : fd_open_ok lateZeroFile = true) by reflexivity.
  assert (Hr2 : file_Read lateZeroFile 1024 = IOOk 1024) by (vm_compute; reflexivity).
  assert (Hz2 : ~ In x00 (firstn 1024 (fd_bytes lateZeroFile))).
  { intros H. apply containsZero_In in H. vm_compute in H. discriminate H. }
  split; [exact Ho1|]. split; [exact Hr1|]. split; [exact Hz1|].
  split; [exact (proj1 (proj2 (proj2 (isBinaryFile_first_1024 earlyZeroFile 1024 Ho1 Hr1))) Hz1)|].
  split; [exact Ho2|]. split; [exact Hr2|]. split; [exact Hz2|].
  exact (proj1 (proj2 (proj2 (proj2 (proj2 (isBinaryFile_first_1024 lateZeroFile 1024 Ho2 Hr2))))) Hz2).
Defined.

Example isBinaryFile_zero_at_2000 : isBinaryFile lateZeroFile = IOOk false.
Proof. vm_compute. reflexivity. Qed.

Example isBinaryFile_zero_at_1000 : isBinaryFile earlyZeroFile = IOOk true.
Proof. vm_compute. reflexivity. Qed.

Example isBinaryFile_empty : isBinaryFile (regularFile []) = IOOk false.
Proof. reflexivity. Qed.

(** ** Filtering by extension or name *)

(** C3: a file whose extension or full name is in [ignoreExts] is recorded
    as "Ignored Extension/File" and nothing else happens: the callback
    neither opens nor reads it, whatever the file holds. *)
Theorem ignored_ext_never_read (cfg : Config) (root p : path) (name : string)
    (fd : FileData) (s : State)
    (Hign : filepath_Ext name ∈ ignoreExts cfg \/ name ∈ ignoreExts cfg) :
  walkDir cfg root p (File name fd) s =
    (appendSkip "Ignored Extension/File" p (emit (EvVisit p) s), None) /\
  trace (appendSkip "Ignored Extension/File" p (emit (EvVisit p) s)) =
    trace s ++ [EvVisit p].
Proof.
  split; [|reflexivity].
  cbn [walkDir]. unfold visitFile, Contains.
  destruct Hign as [H|H].
  - rewrite (bool_decide_eq_true_2 _ H). reflexivity.
  - rewrite (bool_decide_eq_true_2 _ H), orb_true_r. reflexivity.
Qed.

Lemma ignored_ext_never_read_witness :
  (filepath_Ext "app.exe" ∈ ignoreExts (presetConfig "go") \/
   "app.exe" ∈ ignoreExts (presetConfig "go")) /\
  walkDir (presetConfig "go") [] ["app.exe"] (File "app.exe" textFile) (emptyState (newWriter true)) =
    (appendSkip "Ignored Extension/File" ["app.exe"]
       (emit (EvVisit ["app.exe"]) (emptyState (newWriter true))), None).
Proof.
  assert (H : filepath_Ext "app.exe" ∈ ignoreExts (presetConfig "go") \/
              "app.exe" ∈ ignoreExts (presetConfig "go")).
  { left. apply (bool_decide_eq_true_1 (filepath_Ext "app.exe" ∈ ignoreExts (presetConfig "go"))). vm_compute. reflexivity. }
  split; [exact H|].
  apply (ignored_ext_never_read (presetConfig "go") [] ["app.exe"] "app.exe" textFile _ H).
Defined.

(** ** Language tags *)

Lemma visitFile_records (cfg : Config) (root p : path) (name : string) (fd : FileData)
    (s s' : State) (e : option WalkErr) :
  visitFile cfg root p name fd s = (s', e) ->
  bundled s' = bundled s \/
  exists content,
    bundled s' = bundled s ++
      [{| relativePath := relPath root p;
          languageTag := langOf (langMap cfg) (filepath_Ext name) name;
          content := content |}].
Proof.
  unfold visitFile.
  destruct (Contains _ _ || Contains _ _); [intros [= <- _]; left; reflexivity|].
  destruct (isBinaryFile fd) as [[|]|];
    [intros [= <- _]; left; reflexivity| |intros [= <- _]; left; reflexivity].
  destruct (os_ReadFile fd) as [content|]; [|intros [= <- _]; left; reflexivity].
  cbn [emit bundled writer].
  destruct (writer_Write _ _) as [w1 []]; [|intros [= <- _]; left; reflexivity].
  destruct (writer_Write w1 _) as [w2 []]; [|intros [= <- _]; left; reflexivity].
  destruct (writer_Write w2 _) as [w3 []]; [|intros [= <- _]; left; reflexivity].
  intros [= <- _]. right. exists content. reflexivity.
Qed.

(** C4: the tag of an accepted file is the merged language map's value for
    its extension when there is one; otherwise the well-known-filename
    table's value for its exact name; otherwise "text". *)
Theorem accepted_file_language (cfg : Config) (root p : path) (name : string)
    (fd : FileData) (s s' : State) (e : option WalkErr) (rec : BundleRecord)
    (Hvisit : visitFile cfg root p name fd s = (s', e))
    (Haccepted : bundled s' = bundled s ++ [rec]) :
  (forall v, langMap cfg !! filepath_Ext name = Some v -> languageTag rec = v) /\
  (langMap cfg !! filepath_Ext name = None ->
     forall v, filenameLangMap !! name = Some v -> languageTag rec = v) /\
  (langMap cfg !! filepath_Ext name = None -> filenameLangMap !! name = None ->
     languageTag rec = "text").
Proof.
  destruct (visitFile_records cfg root p name fd s s' e Hvisit) as [Hsame|[content Hrec]].
  - rewrite Hsame in Haccepted.
    apply (f_equal (@List.length BundleRecord)) in Haccepted.
    rewrite length_app in Haccepted. simpl in Haccepted. lia.
  - rewrite Hrec in Haccepted. apply app_inv_head in Haccepted.
    injection Haccepted as <-. cbn [languageTag]. unfold langOf.
    split; [|split].
    + intros v ->. reflexivity.
    + intros -> v ->. reflexivity.
    + intros -> ->. reflexivity.
Qed.

Definition dockerfileVisit : State * option WalkErr :=
  visitFile (presetConfig "go") [] ["Dockerfile"] "Dockerfile" textFile
            (emptyState (newWriter true)).

Lemma accepted_file_language_witness :
  bundled (fst dockerfileVisit) =
    bundled (emptyState (newWriter true)) ++
      [{| relativePath := ["Dockerfile"]; languageTag := "dockerfile";
          content := fd_bytes textFile |}] /\
  (langMap (presetConfig "go") !! filepath_Ext "Dockerfile" = None ->
     forall v, filenameLangMap !! "Dockerfile" = Some v -> "dockerfile" = v).
Proof.
  assert (H : bundled (fst dockerfileVisit) =
                bundled (emptyState (newWriter true)) ++
                  [{| relativePath := ["Dockerfile"]; languageTag := "dockerfile";
                      content := fd_bytes textFile |}]).
  { vm_compute. reflexivity. }
  split; [exact H|].
  exact (proj1 (proj2 (accepted_file_language (presetConfig "go") [] ["Dockerfile"]
           "Dockerfile" textFile _ (fst dockerfileVisit) (snd dockerfileVisit) _
           (surjective_pairing _) H))).
Defined.

(** Matching is exact: a lower-case "makefile" is not "Makefile", and an
    unknown extension falls back to "text". *)
Example langOf_case_sensitive :
  langOf (langMap (presetConfig "go")) (filepath_Ext "makefile") "makefile" = "text".
Proof. vm_compute. reflexivity. Qed.

Example langOf_unknown_extension :
  langOf (langMap (presetConfig "go")) (filepath_Ext "notes.xyz") "notes.xyz" = "text".
Proof. vm_compute. reflexivity. Qed.

Example langOf_extension_first :
  langOf (langMap (presetConfig "go")) (filepath_Ext "go.mod") "go.mod" = "go-mod" /\
  langOf (langMap (presetConfig "go")) (filepath_Ext "README.md") "README.md" = "markdown".
Proof. vm_compute. split; reflexivity. Qed.

(** ** The resolved configuration *)

Lemma map_fold_insert_lookup (r m : gmap string string) (k : string) :
  map_fold (fun k v acc => <[k := v]> acc) r m !! k =
    match m !! k with Some v => Some v | None => r !! k end.
Proof.
  revert k.
  apply (map_fold_weak_ind
           (fun r' m => forall k, r' !! k = match m !! k with Some v => Some v | None => r !! k end)).
  - intros k. rewrite lookup_empty. reflexivity.
  - intros i x m' r' Hi IH k. destruct (decide (i = k)) as [->|Hne].
    + rewrite !lookup_insert_eq. reflexivity.
    + rewrite !lookup_insert_ne by done. apply IH.
Qed.

Lemma mergeMaps_two (m1 m2 : gmap string string) (k : string) :
  mergeMaps [m1; m2] !! k = match m2 !! k with Some v => Some v | None => m1 !! k end.
Proof.
  unfold mergeMaps. cbn [fold_left].
  rewrite map_fold_insert_lookup, map_fold_insert_lookup, lookup_empty.
  destruct (m1 !! k), (m2 !! k); reflexivity.
Qed.

Lemma newStringSet_fold (items : list string) (acc : gset string) (x : string) :
  x ∈ fold_left (fun s item => {[item]} ∪ s) items acc <-> x ∈ acc \/ In x items.
Proof.
  revert acc. induction items as [|item items IH]; intros acc; cbn [fold_left In].
  - tauto.
  - rewrite IH, elem_of_union, elem_of_singleton. intuition congruence.
Qed.

Lemma newStringSet_elem (items : list string) (x : string) :
  x ∈ newStringSet items <-> In x items.
Proof. unfold newStringSet. rewrite newStringSet_fold. set_solver. Qed.

(** C8: the override map wins on every key it has, the base map gives the
    other keys, and the ignore sets hold exactly the preset's lists. *)
Theorem resolveConfig_spec (pc : ProjectConfig) :
  (forall k v, LangMap pc !! k = Some v -> langMap (resolveConfig pc) !! k = Some v) /\
  (forall k, LangMap pc !! k = None -> langMap (resolveConfig pc) !! k = baseLangMap !! k) /\
  (forall x, x ∈ ignoreDirs (resolveConfig pc) <-> In x (IgnoreDirs pc)) /\
  (forall x, x ∈ ignoreExts (resolveConfig pc) <-> In x (IgnoreExts pc)).
Proof.
  unfold resolveConfig; cbn [langMap ignoreDirs ignoreExts].
  split; [|split; [|split]].
  - intros k v H. rewrite mergeMaps_two, H. reflexivity.
  - intros k H. rewrite mergeMaps_two, H. reflexivity.
  - intros x. apply newStringSet_elem.
  - intros x. apply newStringSet_elem.
Qed.

(** ** A root directory whose own name is ignored *)

(** C9: when the base name of the source root is in the preset's
    [IgnoreDirs], the walk stops at the root: no record, and the ledger
    holds the root path alone, under "Ignored Directory". *)
Theorem root_ignored_pruned (projectType : string) (env : DetectEnv) (root : path)
    (nm : string) (ok : bool) (kids : list node) (devOk : bool) (pc : ProjectConfig)
    (Hcfg : loadConfig projectType env = Some pc) (Hign : In nm (IgnoreDirs pc)) :
  main projectType env true root (Some (Dir nm ok kids)) devOk =
    Completed {| skippedFiles := {["Ignored Directory" := [root]]};
                 bundled := []; trace := [EvVisit root];
                 writer := newWriter devOk |}.
Proof.
  unfold main. rewrite Hcfg. cbn [negb].
  unfold WalkDir. cbn [view walkDir].
  assert (Hc : Contains (ignoreDirs (resolveConfig pc)) nm = true).
  { unfold Contains. apply bool_decide_eq_true_2.
    apply (proj1 (proj2 (proj2 (resolveConfig_spec pc)))). exact Hign. }
  rewrite Hc. unfold appendSkip, emit, emptyState. cbn.
  rewrite lookup_empty. reflexivity.
Qed.

Definition vendorEnv : DetectEnv :=
  {| landmarkOrder := landmarkFiles; statOk := fun _ => false; xcodeprojMatches := [] |}.

Lemma root_ignored_pruned_witness :
  (exists pc, loadConfig "go" vendorEnv = Some pc /\ In "vendor" (IgnoreDirs pc)) /\
  main "go" vendorEnv true ["vendor"] (Some (Dir "vendor" true [File "b.go" textFile])) true =
    Completed {| skippedFiles := {["Ignored Directory" := [["vendor"]]]};
                 bundled := []; trace := [EvVisit ["vendor"]];
                 writer := newWriter true |}.
Proof.
  destruct (loadConfig "go" vendorEnv) as [pc|] eqn:Hcfg; [|discriminate Hcfg].
  assert (Hign : In "vendor" (IgnoreDirs pc)).
  { vm_compute in Hcfg. injection Hcfg as <-. simpl. tauto. }
  split; [exists pc; split; [reflexivity | exact Hign]|].
  exact (root_ignored_pruned "go" vendorEnv ["vendor"] "vendor" true _ true pc Hcfg Hign).
Defined.

(** ** Project-type resolution *)

Lemma firstLandmark_in (statOk : string -> bool) (order : list (string * string))
    (projectType : string) :
  firstLandmark statOk order = Some projectType ->
  exists landmark, In (landmark, projectType) order.
Proof.
  induction order as [|[landmark t] rest IH]; cbn [firstLandmark]; [discriminate|].
  destruct (statOk landmark).
  - intros [= <-]. exists landmark. left. reflexivity.
  - intros H. destruct (IH H) as [l Hl]. exists l. right. exact Hl.
Qed.

Lemma detectProjectType_preset (env : DetectEnv) :
  (forall e, In e (landmarkOrder env) -> In e landmarkFiles) ->
  exists pc, projectConfigs !! detectProjectType env = Some pc.
Proof.
  intros Hsub. unfold detectProjectType.
  destruct (firstLandmark _ _) as [t|] eqn:Hfirst.
  - destruct (firstLandmark_in _ _ _ Hfirst) as [l Hl].
    apply Hsub in Hl. cbn [landmarkFiles In] in Hl.
    destruct Hl as [H|[H|[H|[H|[H|[]]]]]]; injection H as _ <-;
      eexists; reflexivity.
  - destruct (0 <? _)%nat; eexists; reflexivity.
Qed.

(** C10: with "auto" the detected type always names a preset, so the
    invalid-type error arises only for an explicit type that is not a
    preset name. *)
Theorem auto_type_never_invalid (projectType : string) (env : DetectEnv)
    (Horder : Permutation (landmarkOrder env) landmarkFiles) :
  (exists pc, loadConfig "auto" env = Some pc) /\
  (loadConfig projectType env = None <->
     projectType <> "auto" /\ projectConfigs !! projectType = None) /\
  (forall createOk root tree devOk t,
     main projectType env createOk root tree devOk = Fatal (InvalidProjectType t) ->
     projectType <> "auto" /\ t = projectType /\ projectConfigs !! projectType = None).
Proof.
  assert (Hauto : exists pc, loadConfig "auto" env = Some pc).
  { apply detectProjectType_preset. intros e He. exact (Permutation_in _ Horder He). }
  assert (Hnone : loadConfig projectType env = None <->
                  projectType <> "auto" /\ projectConfigs !! projectType = None).
  { unfold loadConfig, finalProjectType.
    destruct (String.eqb projectType "auto") eqn:E.
    - apply String.eqb_eq in E. subst projectType. destruct Hauto as [pc Hpc].
      unfold loadConfig, finalProjectType in Hpc. rewrite String.eqb_refl in Hpc. rewrite Hpc.
      split; [discriminate | intros [H _]; contradiction].
    - apply String.eqb_neq in E. tauto. }
  split; [exact Hauto|]. split; [exact Hnone|].
  intros createOk root tree devOk t Hmain. unfold main in Hmain.
  destruct (loadConfig projectType env) eqn:Hcfg.
  - destruct (negb createOk); [discriminate|].
    destruct (WalkDir _ _ _ _) as [? []]; discriminate.
  - injection Hmain as <-. destruct (proj1 Hnone eq_refl) as [Hne Hpc].
    unfold finalProjectType. apply String.eqb_neq in Hne as Hne'. rewrite Hne'.
    tauto.
Qed.

Lemma auto_type_never_invalid_witness :
  Permutation (landmarkOrder vendorEnv) landmarkFiles /\
  exists pc, loadConfig "auto" vendorEnv = Some pc.
Proof.
  assert (H : Permutation (landmarkOrder vendorEnv) landmarkFiles) by reflexivity.
  split; [exact H|].
  exact (proj1 (auto_type_never_invalid "auto" vendorEnv H)).
Defined.

(** ** Read errors are isolated to their file *)

(** C6: when the binary check or the full read of a file fails, the file is
    recorded under "File Read Error", the failure is logged, no record is
    written and the walk goes on with the next entry. *)
Theorem read_error_isolated (cfg : Config) (root p : path) (name : string)
    (fd : FileData) (rest : list node) (s : State)
    (Hkept : (filepath_Ext name ∉ ignoreExts cfg) /\ (name ∉ ignoreExts cfg))
    (Herr : isBinaryFile fd = IOError \/
            (isBinaryFile fd = IOOk false /\ os_ReadFile fd = IOError)) :
  exists s',
    walkEntries (walkDir cfg root) p (File name fd :: rest) s =
      walkEntries (walkDir cfg root) p rest s' /\
    skippedFiles s' =
      <["File Read Error" := default [] (skippedFiles s !! "File Read Error") ++ [p ++ [name]]]>
        (skippedFiles s) /\
    bundled s' = bundled s /\
    exists evs, trace s' = trace s ++ evs ++ [EvLog (p ++ [name])].
Proof.
  destruct Hkept as [Hext Hname].
  cbn [walkEntries walkDir node_name]. unfold visitFile, Contains.
  rewrite (bool_decide_eq_false_2 _ Hext), (bool_decide_eq_false_2 _ Hname). cbn [orb].
  destruct Herr as [Hb|[Hb Hr]]; rewrite Hb; [|rewrite Hr].
  - eexists. split; [reflexivity|]. split; [reflexivity|]. split; [reflexivity|].
    exists [EvVisit (p ++ [name]); EvOpen (p ++ [name])].
    cbn [trace emit appendSkip]. rewrite <- !app_assoc. reflexivity.
  - eexists. split; [reflexivity|]. split; [reflexivity|]. split; [reflexivity|].
    exists [EvVisit (p ++ [name]); EvOpen (p ++ [name]); EvReadFile (p ++ [name])].
    cbn [trace emit appendSkip]. rewrite <- !app_assoc. reflexivity.
Qed.

Definition unreadableFile : FileData :=
  {| fd_bytes := [x61]; fd_open_ok := false; fd_read_chunk := None; fd_readfile_ok := false |}.

Lemma read_error_isolated_witness :
  ((filepath_Ext "a.go" ∉ ignoreExts (presetConfig "go")) /\
   ("a.go" ∉ ignoreExts (presetConfig "go"))) /\
  isBinaryFile unreadableFile = IOError /\
  exists s',
    walkEntries (walkDir (presetConfig "go") []) [] [File "a.go" unreadableFile]
                (emptyState (newWriter true)) =
      walkEntries (walkDir (presetConfig "go") []) [] [] s' /\
    bundled s' = [].
Proof.
  assert (Hk : (filepath_Ext "a.go" ∉ ignoreExts (presetConfig "go")) /\
               ("a.go" ∉ ignoreExts (presetConfig "go"))).
  { split.
    - apply (bool_decide_eq_false_1 (filepath_Ext "a.go" ∈ ignoreExts (presetConfig "go"))).
      vm_compute. reflexivity.
    - apply (bool_decide_eq_false_1 ("a.go" ∈ ignoreExts (presetConfig "go"))).
      vm_compute. reflexivity. }
  assert (Hb : isBinaryFile unreadableFile = IOError) by reflexivity.
  split; [exact Hk|]. split; [exact Hb|].
  destruct (read_error_isolated (presetConfig "go") [] [] "a.go" unreadableFile []
              (emptyState (newWriter true)) Hk (or_introl Hb))
    as (s' & Hw & _ & Hb' & _).
  exists s'. split; [exact Hw | exact Hb'].
Defined.

(** ** What ends a run *)

Lemma node_ind' (P : node -> Prop)
    (HF : forall nm fd, P (File nm fd))
    (HD : forall nm ok kids, Forall P kids -> P (Dir nm ok kids)) :
  forall n, P n.
Proof.
  fix IH 1. intros [nm fd|nm ok kids]; [apply HF|apply HD].
  revert kids. fix IHl 1. intros [|c kids]; constructor; [apply IH | apply IHl].
Qed.

Definition healthy (w : Writer) : Prop := w_dev_ok w = true /\ w_err w = false.

Lemma writer_Write_healthy (w : Writer) (len : nat) :
  healthy w -> healthy (fst (writer_Write w len)) /\ snd (writer_Write w len) = true.
Proof.
  intros [Hd He]. unfold writer_Write. rewrite He.
  destruct (len <=? _)%nat; [split; [split|]; cbn; auto|].
  rewrite Hd. split; [split|]; reflexivity.
Qed.

(** With an output that accepts writes, the file callback never fails. *)
Lemma visitFile_healthy (cfg : Config) (root p : path) (name : string) (fd : FileData)
    (s : State) :
  healthy (writer s) ->
  healthy (writer (fst (visitFile cfg root p name fd s))) /\
  snd (visitFile cfg root p name fd s) = None.
Proof.
  intros Hh. unfold visitFile.
  destruct (Contains _ _ || Contains _ _); [split; [exact Hh|reflexivity]|].
  destruct (isBinaryFile fd) as [[|]|]; [split; [exact Hh|reflexivity]| |split; [exact Hh|reflexivity]].
  destruct (os_ReadFile fd) as [content|]; [|split; [exact Hh|reflexivity]].
  cbn [emit writer].
  pose proof (writer_Write_healthy _ (String.length (header (relPath root p)
                 (langOf (langMap cfg) (filepath_Ext name) name))) Hh) as [H1 E1].
  unfold relPath in H1, E1.
  destruct (writer_Write (writer s) _) as [w1 ok1]. cbn in H1, E1. subst ok1. cbn [negb].
  pose proof (writer_Write_healthy w1 (List.length content) H1) as [H2 E2].
  destruct (writer_Write w1 _) as [w2 ok2]. cbn in H2, E2. subst ok2. cbn [negb].
  pose proof (writer_Write_healthy w2 (String.length footer) H2) as [H3 E3].
  destruct (writer_Write w2 _) as [w3 ok3]. cbn in H3, E3. subst ok3. cbn [negb].
  split; [exact H3|reflexivity].
Qed.

Lemma walkEntries_healthy (walk : path -> node -> State -> State * option WalkErr)
    (p : path) (l : list node) :
  Forall (fun c => forall q s, healthy (writer s) ->
            healthy (writer (fst (walk q c s))) /\ snd (walk q c s) <> Some ErrWrite) l ->
  forall s, healthy (writer s) ->
  healthy (writer (fst (walkEntries walk p l s))) /\
  snd (walkEntries walk p l s) <> Some ErrWrite.
Proof.
  induction 1 as [|c l Hc Hl IH]; intros s Hh; cbn [walkEntries].
  - split; [exact Hh|discriminate].
  - destruct (Hc (p ++ [node_name c]) s Hh) as [H1 H2].
    destruct (walk (p ++ [node_name c]) c s) as [s1 [e|]]; cbn in H1, H2.
    + split; [exact H1|exact H2].
    + apply IH, H1.
Qed.

(** With an output that accepts writes, the walk never fails on a write
    and leaves the writer healthy. *)
Lemma walkDir_healthy (cfg : Config) (root : path) :
  forall n p s, healthy (writer s) ->
  healthy (writer (fst (walkDir cfg root p n s))) /\
  snd (walkDir cfg root p n s) <> Some ErrWrite.
Proof.
  induction n as [nm fd|nm ok kids IHkids] using node_ind'; intros p s Hh.
  - cbn [walkDir]. destruct (visitFile_healthy cfg root p nm fd (emit (EvVisit p) s) Hh)
      as [H1 H2].
    split; [exact H1|]. rewrite H2. discriminate.
  - cbn [walkDir].
    destruct (Contains _ nm); [split; [exact Hh|discriminate]|].
    destruct ok; cbn [negb]; [|split; [exact Hh|discriminate]].
    apply walkEntries_healthy; [exact IHkids | exact Hh].
Qed.

Lemma walkEntries_err (cfg : Config) (walk : path -> node -> State -> State * option WalkErr)
    (p : path) (l : list node) :
  Forall (fun c => forall q s s' e, walk q c s = (s', Some e) ->
            (exists r nm kids, e = ErrReadDir (q ++ r) /\ reach cfg c r (Dir nm false kids) /\
                               nm ∉ ignoreDirs cfg) \/
            e = ErrWrite) l ->
  forall s s' e, walkEntries walk p l s = (s', Some e) ->
  (exists c r nm kids, In c l /\ e = ErrReadDir (p ++ node_name c :: r) /\
                       reach cfg c r (Dir nm false kids) /\ nm ∉ ignoreDirs cfg) \/
  e = ErrWrite.
Proof.
  induction 1 as [|c l Hc Hl IH]; intros s s' e; cbn [walkEntries]; [discriminate|].
  destruct (walk (p ++ [node_name c]) c s) as [s1 [e1|]] eqn:E.
  - intros [= -> ->]. destruct (Hc _ _ _ _ E) as [(r & nm & kids & -> & Hat & Hni)| ->].
    + left. exists c, r, nm, kids. split; [left; reflexivity|].
      rewrite <- app_assoc. split; [reflexivity|split; [exact Hat|exact Hni]].
    + right. reflexivity.
  - intros Hw. destruct (IH _ _ _ Hw) as [(c' & r & nm & kids & Hin & He & Hat & Hni)|He].
    + left. exists c', r, nm, kids. split; [right; exact Hin|]. split; [exact He|].
      split; [exact Hat|exact Hni].
    + right. exact He.
Qed.

(** A walk error is a failed listing of a directory the walk entered (the
    directories on the way to it, and the directory itself, are not
    ignored), or a failed write. *)
Lemma walkDir_err (cfg : Config) (root : path) :
  forall n p s s' e, walkDir cfg root p n s = (s', Some e) ->
  (exists r nm kids, e = ErrReadDir (p ++ r) /\ reach cfg n r (Dir nm false kids) /\
                     nm ∉ ignoreDirs cfg) \/
  e = ErrWrite.
Proof.
  induction n as [nm fd|nm ok kids IHkids] using node_ind'; intros p s s' e.
  - cbn [walkDir]. unfold visitFile.
    destruct (Contains _ _ || Contains _ _); [discriminate|].
    destruct (isBinaryFile fd) as [[|]|]; [discriminate| |discriminate].
    destruct (os_ReadFile fd) as [content|]; [|discriminate].
    destruct (writer_Write _ _) as [w1 []]; cbn [negb];
      [|intros [= _ <-]; right; reflexivity].
    destruct (writer_Write w1 _) as [w2 []]; cbn [negb];
      [|intros [= _ <-]; right; reflexivity].
    destruct (writer_Write w2 _) as [w3 []]; cbn [negb];
      [discriminate|intros [= _ <-]; right; reflexivity].
  - cbn [walkDir].
    destruct (Contains _ nm) eqn:Hc; [discriminate|].
    apply bool_decide_eq_false_1 in Hc.
    destruct ok; cbn [negb].
    + intros Hw. destruct (walkEntries_err cfg _ p kids IHkids _ _ _ Hw)
        as [(c & r & nm' & kids' & Hin & He & Hat & Hni)|He].
      * left. exists (node_name c :: r), nm', kids'. split; [exact He|].
        split; [apply reach_child; assumption|exact Hni].
      * right. exact He.
    + intros [= _ <-]. left. exists [], nm, kids. rewrite app_nil_r.
      split; [reflexivity|]. split; [constructor|exact Hc].
Qed.

(** The big file of the counterexample: 5000 bytes of text. *)
Definition bigTree : node :=
  Dir "proj" true [File "big.txt" (regularFile (repeat x41 5000))].

(** C5 (as stated): a failed write of a file's record to the output ends
    the run after the walk has begun: here the output rejects writes
    (e.g. a full disk) and a 5000-byte text file overflows the buffer. *)
Lemma write_error_aborts_run :
  main "go" vendorEnv true [] (Some bigTree) false = Fatal (WalkFailed ErrWrite).
Proof. vm_compute. reflexivity. Qed.

(** ** Pruning of ignored directories *)

Lemma ledger_has_appendSkip (reason : string) (q : path) (s : State) (r : string) (x : path) :
  ledger_has (appendSkip reason q s) r x -> ledger_has s r x \/ (r = reason /\ x = q).
Proof.
  unfold ledger_has, appendSkip. cbn [skippedFiles].
  intros (ps & Hps & Hin). destruct (decide (reason = r)) as [<-|Hne].
  - rewrite lookup_insert_eq in Hps. injection Hps as <-.
    apply in_app_or in Hin as [Hin|[<-|[]]]; [|right; split; reflexivity].
    left. destruct (skippedFiles s !! reason) as [old|]; [exists old; split; [reflexivity|exact Hin]|].
    destruct Hin.
  - rewrite lookup_insert_ne in Hps by exact Hne. left. exists ps. split; assumption.
Qed.

Section AddsOnly.
  Variable root : path.

Lemma adds_only_refl (A : path -> node -> Prop) (s : State) : adds_only A root s s.
  Proof.
    split; [exists []; rewrite app_nil_r; split; [reflexivity|intros _ []]|].
    split; [exists []; rewrite app_nil_r; split; [reflexivity|intros _ []]|].
    intros reason q H. left. exact H.
  Qed.

Lemma adds_only_trans (A : path -> node -> Prop) (s1 s2 s3 : State) :
    adds_only A root s1 s2 -> adds_only A root s2 s3 -> adds_only A root s1 s3.
  Proof.
    intros ((e1 & He1 & Hev1) & (r1 & Hr1 & Hrec1) & Hl1)
           ((e2 & He2 & Hev2) & (r2 & Hr2 & Hrec2) & Hl2).
    split; [|split].
    - exists (e1 ++ e2). rewrite He2, He1, app_assoc. split; [reflexivity|].
      intros ev [Hin|Hin]%in_app_or; [apply Hev1|apply Hev2]; exact Hin.
    - exists (r1 ++ r2). rewrite Hr2, Hr1, app_assoc. split; [reflexivity|].
      intros rec [Hin|Hin]%in_app_or; [apply Hrec1|apply Hrec2]; exact Hin.
    - intros reason q H. destruct (Hl2 reason q H) as [H'|H']; [|right; exact H'].
      exact (Hl1 reason q H').
  Qed.

Lemma adds_only_mono (A B : path -> node -> Prop) (s s' : State) :
    (forall q m, A q m -> B q m) -> adds_only A root s s' -> adds_only B root s s'.
  Proof.
    intros HAB ((e & He & Hev) & (r & Hr & Hrec) & Hl). split; [|split].
    - exists e. split; [exact He|]. intros ev Hin.
      destruct (Hev ev Hin) as [m Hm]. exists m. apply HAB, Hm.
    - exists r. split; [exact Hr|]. intros rec Hin.
      destruct (Hrec rec Hin) as (q & nm & fd & Hq & HA).
      exists q, nm, fd. split; [exact Hq|]. apply HAB, HA.
    - intros reason q H. destruct (Hl reason q H) as [H'|(m & HA & Hk)]; [left; exact H'|].
      right. exists m. split; [apply HAB, HA|exact Hk].
  Qed.

Lemma adds_only_emit (A : path -> node -> Prop) (e : Event) (m : node) (s : State) :
    A (event_path e) m -> adds_only A root s (emit e s).
  Proof.
    intros HA. split; [|split].
    - exists [e]. split; [reflexivity|]. intros ev [<-|[]]. exists m. exact HA.
    - exists []. rewrite app_nil_r. split; [reflexivity|intros _ []].
    - intros reason q H. left. exact H.
  Qed.

Lemma adds_only_appendSkip (A : path -> node -> Prop) (reason : string) (q : path)
      (m : node) (s : State) :
    A q m -> kind_ok reason m -> adds_only A root s (appendSkip reason q s).
  Proof.
    intros HA Hk. split; [|split].
    - exists []. rewrite app_nil_r. split; [reflexivity|intros _ []].
    - exists []. rewrite app_nil_r. split; [reflexivity|intros _ []].
    - intros r x H. apply ledger_has_appendSkip in H as [H|[-> ->]]; [left; exact H|].
      right. exists m. split; assumption.
  Qed.

Lemma adds_only_setWriter (A : path -> node -> Prop) (w : Writer) (s : State) :
    adds_only A root s (setWriter w s).
  Proof.
    split; [exists []; rewrite app_nil_r; split; [reflexivity|intros _ []]|].
    split; [exists []; rewrite app_nil_r; split; [reflexivity|intros _ []]|].
    intros reason q H. left. exact H.
  Qed.

Lemma adds_only_addRecord (A : path -> node -> Prop) (rec : BundleRecord) (q : path)
      (nm : string) (fd : FileData) (s : State) :
    relativePath rec = relPath root q -> A q (File nm fd) ->
    adds_only A root s (addRecord rec s).
  Proof.
    intros Hq HA. split; [|split].
    - exists []. rewrite app_nil_r. split; [reflexivity|intros _ []].
    - exists [rec]. split; [reflexivity|]. intros r [<-|[]]. exists q, nm, fd.
      split; assumption.
    - intros reason x H. left. exact H.
  Qed.
End AddsOnly.

(** The file callback only touches the file's own path. *)
Lemma visitFile_adds (cfg : Config) (root p : path) (name : string) (fd : FileData)
    (s : State) :
  adds_only (fun q m => q = p /\ m = File name fd) root s
            (fst (visitFile cfg root p name fd s)).
Proof.
  assert (HA : p = p /\ File name fd = File name fd) by (split; reflexivity).
  unfold visitFile.
  destruct (Contains _ _ || Contains _ _).
  { apply (adds_only_appendSkip _ _ _ _ (File name fd)); [exact HA|discriminate]. }
  apply (adds_only_trans _ _ _ (emit (EvOpen p) s));
    [apply (adds_only_emit _ _ _ (File name fd)); exact HA|].
  destruct (isBinaryFile fd) as [[|]|]; cbn [fst].
  - apply (adds_only_appendSkip _ _ _ _ (File name fd)); [exact HA|discriminate].
  - apply (adds_only_trans _ _ _ (emit (EvReadFile p) (emit (EvOpen p) s)));
      [apply (adds_only_emit _ _ _ (File name fd)); exact HA|].
    destruct (os_ReadFile fd) as [content|].
    + destruct (writer_Write _ _) as [w1 []]; cbn [negb fst];
        [|apply adds_only_setWriter].
      destruct (writer_Write w1 _) as [w2 []]; cbn [negb fst];
        [|apply adds_only_setWriter].
      destruct (writer_Write w2 _) as [w3 []]; cbn [negb fst];
        [|apply adds_only_setWriter].
      apply (adds_only_trans _ _ _ (setWriter w3 (emit (EvReadFile p) (emit (EvOpen p) s))));
        [apply adds_only_setWriter|].
      apply (adds_only_addRecord _ _ _ p name fd); [reflexivity|exact HA].
    + apply (adds_only_trans _ _ _
               (appendSkip "File Read Error" p (emit (EvReadFile p) (emit (EvOpen p) s)))).
      * apply (adds_only_appendSkip _ _ _ _ (File name fd)); [exact HA|discriminate].
      * apply (adds_only_emit _ _ _ (File name fd)); exact HA.
  - apply (adds_only_trans _ _ _ (appendSkip "File Read Error" p (emit (EvOpen p) s))).
    + apply (adds_only_appendSkip _ _ _ _ (File name fd)); [exact HA|discriminate].
    + apply (adds_only_emit _ _ _ (File name fd)); exact HA.
Qed.

Lemma walkEntries_adds (root : path) (walk : path -> node -> State -> State * option WalkErr)
    (p : path) (B : path -> node -> Prop) (l : list node) :
  Forall (fun c => forall s, adds_only B root s (fst (walk (p ++ [node_name c]) c s))) l ->
  forall s, adds_only B root s (fst (walkEntries walk p l s)).
Proof.
  induction 1 as [|c l Hc Hl IH]; intros s; cbn [walkEntries].
  - apply adds_only_refl.
  - specialize (Hc s).
    destruct (walk (p ++ [node_name c]) c s) as [s1 [e|]]; cbn [fst] in Hc |- *.
    + exact Hc.
    + exact (adds_only_trans _ _ _ _ _ Hc (IH s1)).
Qed.

(** Everything the walk of [n] at [p] records concerns a position of [n]
    that the walk can reach without entering an ignored directory. *)
Lemma walkDir_adds (cfg : Config) (root : path) :
  forall n p s,
  adds_only (fun q m => exists r, q = p ++ r /\ reach cfg n r m) root s
            (fst (walkDir cfg root p n s)).
Proof.
  induction n as [nm fd|nm ok kids IHkids] using node_ind'; intros p s.
  - cbn [walkDir].
    apply (adds_only_trans _ _ _ (emit (EvVisit p) s)).
    + apply (adds_only_emit _ _ _ (File nm fd)). exists []. rewrite app_nil_r.
      split; [reflexivity|constructor].
    + eapply adds_only_mono; [|apply visitFile_adds].
      intros q m [-> ->]. exists []. rewrite app_nil_r. split; [reflexivity|constructor].
  - cbn [walkDir].
    assert (Hhere : exists r, p = p ++ r /\ reach cfg (Dir nm ok kids) r (Dir nm ok kids))
      by (exists []; rewrite app_nil_r; split; [reflexivity|constructor]).
    apply (adds_only_trans _ _ _ (emit (EvVisit p) s));
      [apply (adds_only_emit _ _ _ (Dir nm ok kids)); exact Hhere|].
    destruct (Contains (ignoreDirs cfg) nm) eqn:Hc.
    { apply (adds_only_appendSkip _ _ _ _ (Dir nm ok kids)); [exact Hhere|reflexivity]. }
    apply bool_decide_eq_false_1 in Hc.
    apply (adds_only_trans _ _ _ (emit (EvReadDir p) (emit (EvVisit p) s)));
      [apply (adds_only_emit _ _ _ (Dir nm ok kids)); exact Hhere|].
    destruct ok; cbn [negb fst].
    + apply walkEntries_adds. apply Forall_forall. intros c Hin s1.
      rewrite Forall_forall in IHkids.
      eapply adds_only_mono; [|apply (IHkids c Hin)].
      intros q m (r & -> & Hr). exists (node_name c :: r).
      rewrite <- app_assoc. split; [reflexivity|].
      apply reach_child; [exact Hc|apply list_elem_of_In; exact Hin|exact Hr].
    + apply (adds_only_emit _ _ _ (Dir nm false kids)). exact Hhere.
Qed.

(** *** Positions in the tree as [os.ReadDir] presents it *)

Lemma NoDup_map_inj_in {A B} (f : A -> B) (l : list A) (x y : A) :
  NoDup (map f l) -> In x l -> In y l -> f x = f y -> x = y.
Proof.
  induction l as [|a l IH]; intros Hnd Hx Hy Hf; [destruct Hx|].
  cbn [map] in Hnd. apply NoDup_cons in Hnd as [Hna Hnd].
  destruct Hx as [<-|Hx], Hy as [<-|Hy]; [reflexivity| | |exact (IH Hnd Hx Hy Hf)].
  - exfalso. apply Hna. rewrite Hf. apply list_elem_of_In, in_map, Hy.
  - exfalso. apply Hna. rewrite <- Hf. apply list_elem_of_In, in_map, Hx.
Qed.

Lemma node_name_view (n : node) : node_name (view n) = node_name n.
Proof. destruct n; reflexivity. Qed.

Lemma map_name_view (l : list node) : map node_name (map view l) = map node_name l.
Proof. rewrite map_map. apply map_ext. apply node_name_view. Qed.

Lemma ReadDir_perm (l : list node) : Permutation (ReadDir l) l.
Proof. apply merge_sort_Permutation. Qed.

Lemma wf_dir (nm : string) (ok : bool) (kids : list node) :
  wf (Dir nm ok kids) <-> NoDup (map node_name kids) /\ Forall wf kids.
Proof.
  unfold wf. cbn [wfb]. rewrite andb_true_iff, forallb_forall, List.Forall_forall.
  rewrite bool_decide_eq_true. reflexivity.
Qed.

Lemma wf_view (n : node) : wf n -> wf (view n).
Proof.
  induction n as [nm fd|nm ok kids IHkids] using node_ind'; [intros H; exact H|].
  cbn [view]. rewrite !wf_dir. intros [Hnd Hall]. split.
  - rewrite (Permutation_map node_name (ReadDir_perm (map view kids))).
    rewrite map_name_view. exact Hnd.
  - apply List.Forall_forall. intros c Hin.
    apply (Permutation_in _ (ReadDir_perm _)), in_map_iff in Hin as (c0 & <- & Hin).
    rewrite List.Forall_forall in IHkids, Hall. apply IHkids, Hall; exact Hin.
Qed.

Lemma node_at_view (n : node) (r : path) (m : node) :
  node_at n r m -> node_at (view n) r (view m).
Proof.
  induction 1 as [n|nm ok kids c r m Hin Hat IH]; [constructor|].
  cbn [view]. rewrite <- (node_name_view c). constructor; [|exact IH].
  apply (Permutation_in _ (Permutation_sym (ReadDir_perm _))), in_map, Hin.
Qed.

Lemma node_at_det (n : node) (r : path) (m1 m2 : node) :
  wf n -> node_at n r m1 -> node_at n r m2 -> m1 = m2.
Proof.
  intros Hwf H1. revert m2 Hwf.
  induction H1 as [n|nm ok kids c r m Hin Hat IH]; intros m2 Hwf H2.
  - inversion H2; reflexivity.
  - inversion H2 as [|nm' ok' kids' c' r' m' Hin' Hat' Hname]; subst.
    apply wf_dir in Hwf as [Hnd Hall].
    assert (c' = c) as -> by (apply (NoDup_map_inj_in node_name kids); assumption).
    apply IH; [rewrite List.Forall_forall in Hall; apply Hall, Hin|exact Hat'].
Qed.

Lemma reach_node_at (cfg : Config) (n : node) (r : path) (m : node) :
  reach cfg n r m -> node_at n r m.
Proof. induction 1; constructor; assumption. Qed.

(** No position strictly below an ignored directory is reachable. *)
Lemma reach_below_ignored (cfg : Config) (q : path) :
  forall n x m nm ok kids,
  wf n -> node_at n q (Dir nm ok kids) -> nm ∈ ignoreDirs cfg ->
  reach cfg n (q ++ x) m -> x = [].
Proof.
  induction q as [|a q IH]; intros n x m nm ok kids Hwf Hat Hign Hr.
  - inversion Hat; subst. destruct x as [|b x]; [reflexivity|].
    inversion Hr; subst. contradiction.
  - inversion Hat as [|nm0 ok0 kids0 c r0 m0 Hin Hat' Hname]; subst.
    cbn [app] in Hr.
    inversion Hr as [|nm1 ok1 kids1 c' r1 m1 Hnot Hin' Hr' Hname']; subst.
    apply wf_dir in Hwf as [Hnd Hall].
    assert (c' = c) as -> by (apply (NoDup_map_inj_in node_name kids0); assumption).
    rewrite List.Forall_forall in Hall.
    exact (IH c x m nm ok kids (Hall c Hin) Hat' Hign Hr').
Qed.

Lemma relPath_root (root r : path) : relPath root (root ++ r) = r.
Proof.
  unfold relPath, filepath_Rel.
  rewrite bool_decide_eq_true_2 by (exists r; reflexivity).
  rewrite drop_app_length. reflexivity.
Qed.

(** C2: below a directory whose name is in [ignoreDirs] nothing is visited,
    bundled or recorded, and the directory's own path is recorded only as
    an ignored directory. *)
Theorem ignored_dir_pruned (cfg : Config) (root : path) (t : node) (w : Writer)
    (q : path) (nm : string) (ok : bool) (kids : list node)
    (Hwf : wf t) (Hat : node_at t q (Dir nm ok kids)) (Hign : nm ∈ ignoreDirs cfg) :
  let s := fst (WalkDir cfg root (Some t) w) in
  (forall ev x, In ev (trace s) -> x <> [] -> event_path ev <> root ++ q ++ x) /\
  (forall rec x, In rec (bundled s) -> x <> [] -> relativePath rec <> q ++ x) /\
  (forall reason x, x <> [] -> ~ ledger_has s reason (root ++ q ++ x)) /\
  (forall reason, ledger_has s reason (root ++ q) -> reason = "Ignored Directory").
Proof.
  intros s. unfold s, WalkDir. clear s.
  pose proof (node_at_view _ _ _ Hat) as Hat'. cbn [view] in Hat'.
  pose proof (wf_view _ Hwf) as Hwf'.
  assert (Hbelow : forall r m x, reach cfg (view t) r m -> r = q ++ x -> x = []).
  { intros r m x Hr ->. exact (reach_below_ignored cfg q _ x m nm ok _ Hwf' Hat' Hign Hr). }
  destruct (walkDir_adds cfg root (view t) root (emptyState w))
    as ((evs & Htr & Hev) & (rs & Hrs & Hrec) & Hl).
  split; [|split; [|split]].
  - intros ev x Hin Hx Heq. rewrite Htr in Hin. cbn [trace emptyState app] in Hin.
    destruct (Hev ev Hin) as (m & r & Hp & Hr). rewrite Hp in Heq.
    apply app_inv_head in Heq. exact (Hx (Hbelow r m x Hr Heq)).
  - intros rec x Hin Hx Heq. rewrite Hrs in Hin. cbn [bundled emptyState app] in Hin.
    destruct (Hrec rec Hin) as (q0 & nm0 & fd0 & Hq0 & r & -> & Hr).
    rewrite Hq0, relPath_root in Heq. exact (Hx (Hbelow _ _ x Hr Heq)).
  - intros reason x Hx Hled.
    destruct (Hl _ _ Hled) as [(ps & Hps & _)|(m & (r & Hp & Hr) & _)].
    + cbn in Hps. rewrite lookup_empty in Hps. discriminate.
    + apply app_inv_head in Hp. exact (Hx (Hbelow _ _ x Hr (eq_sym Hp))).
  - intros reason Hled.
    destruct (Hl _ _ Hled) as [(ps & Hps & _)|(m & (r & Hp & Hr) & Hk)].
    + cbn in Hps. rewrite lookup_empty in Hps. discriminate.
    + apply app_inv_head in Hp. subst r.
      pose proof (node_at_det _ _ _ _ Hwf' (reach_node_at _ _ _ _ Hr) Hat') as ->.
      exact Hk.
Qed.

Definition vendorTree : node :=
  Dir "proj" true
    [File "a.go" textFile;
     Dir "vendor" true [File "b.go" textFile; Dir "sub" true [File "c.go" textFile]];
     Dir ".git" true [File "config" textFile]].

Lemma ignored_dir_pruned_witness :
  wf vendorTree /\
  node_at vendorTree ["vendor"]
    (Dir "vendor" true [File "b.go" textFile; Dir "sub" true [File "c.go" textFile]]) /\
  "vendor" ∈ ignoreDirs (presetConfig "go") /\
  (forall rec x, In rec (bundled (fst (WalkDir (presetConfig "go") [] (Some vendorTree)
                                              (newWriter true)))) ->
     x <> [] -> relativePath rec <> ["vendor"] ++ x).
Proof.
  assert (Hwf : wf vendorTree) by (vm_compute; reflexivity).
  assert (Hat : node_at vendorTree ["vendor"]
                  (Dir "vendor" true [File "b.go" textFile; Dir "sub" true [File "c.go" textFile]])).
  { apply (at_child "proj" true _
             (Dir "vendor" true [File "b.go" textFile; Dir "sub" true [File "c.go" textFile]]) []).
    - right. left. reflexivity.
    - constructor. }
  assert (Hign : "vendor" ∈ ignoreDirs (presetConfig "go")).
  { apply (bool_decide_eq_true_1 ("vendor" ∈ ignoreDirs (presetConfig "go"))).
    vm_compute. reflexivity. }
  split; [exact Hwf|]. split; [exact Hat|]. split; [exact Hign|].
  exact (proj1 (proj2 (ignored_dir_pruned (presetConfig "go") [] vendorTree (newWriter true)
                         ["vendor"] "vendor" true _ Hwf Hat Hign))).
Defined.

(** ** Determinism of a run *)

Global Instance name_le_trans : Transitive name_le.
Proof. intros a b c H1 H2. unfold name_le in *. etrans; eassumption. Qed.

Global Instance name_le_total : Total name_le.
Proof. intros a b. unfold name_le. apply (total String.le). Qed.

(** Entries with distinct names come out of [os.ReadDir] in one order,
    whatever order the directory stores them in. *)
Lemma ReadDir_perm_eq (l1 l2 : list node) :
  NoDup (map node_name l1) -> Permutation l1 l2 -> ReadDir l1 = ReadDir l2.
Proof.
  intros Hnd Hp. unfold ReadDir.
  apply (StronglySorted_unique_strong name_le).
  - intros x1 x2 Hx1 Hx2 H12 H21.
    apply list_elem_of_In in Hx1, Hx2.
    apply (Permutation_in _ (merge_sort_Permutation _ _)) in Hx1.
    apply (Permutation_in _ (merge_sort_Permutation _ _)) in Hx2.
    apply (Permutation_in _ (Permutation_sym Hp)) in Hx2.
    apply (NoDup_map_inj_in node_name l1); [exact Hnd|exact Hx1|exact Hx2|].
    unfold name_le in H12, H21. apply (anti_symm String.le); assumption.
  - apply StronglySorted_merge_sort; [exact name_le_trans|exact name_le_total].
  - apply StronglySorted_merge_sort; [exact name_le_trans|exact name_le_total].
  - rewrite (merge_sort_Permutation name_le l1), (merge_sort_Permutation name_le l2).
    exact Hp.
Qed.

Lemma same_contents_name (a b : node) : same_contents a b -> node_name a = node_name b.
Proof. intros H. inversion H; reflexivity. Qed.

Lemma Forall2_map_eq {A B} (R : A -> A -> Prop) (f : A -> B) (l1 l2 : list A) :
  Forall2 R l1 l2 -> Forall (fun x => forall y, R x y -> f x = f y) l1 ->
  map f l1 = map f l2.
Proof.
  induction 1 as [|x y l1 l2 Hxy Hl IH]; intros Hall; [reflexivity|].
  inversion Hall as [|? ? Hx Hall']; subst. cbn [map].
  rewrite (Hx y Hxy), (IH Hall'). reflexivity.
Qed.

Lemma view_same (t1 : node) :
  wf t1 -> forall t2, same_contents t1 t2 -> view t1 = view t2.
Proof.
  induction t1 as [nm fd|nm ok kids1 IHkids] using node_ind'; intros Hwf t2 Hsame.
  - inversion Hsame; subst. reflexivity.
  - inversion Hsame as [|nm' ok' kids1' kids1'' kids2 Hf2 Hperm]; subst.
    apply wf_dir in Hwf as [Hnd Hall]. cbn [view].
    assert (Hmap : map view kids1 = map view kids1'').
    { apply (Forall2_map_eq same_contents); [exact Hf2|].
      apply List.Forall_forall. intros c Hin c' Hcc'.
      rewrite List.Forall_forall in IHkids, Hall.
      exact (IHkids c Hin (Hall c Hin) c' Hcc'). }
    assert (Hnames : map node_name kids1 = map node_name kids1'').
    { apply (Forall2_map_eq same_contents); [exact Hf2|].
      apply List.Forall_forall. intros c _ c' Hcc'. exact (same_contents_name c c' Hcc'). }
    rewrite Hmap. f_equal. apply ReadDir_perm_eq.
    + rewrite map_name_view, <- Hnames. exact Hnd.
    + apply Permutation_map. exact Hperm.
Qed.

(** C7: two runs with the same arguments on directories with the same
    contents, stored in any order, have the same outcome: the same records
    (relative paths, tags and contents), ledger and I/O trace. *)
Theorem run_deterministic (projectType : string) (env : DetectEnv) (createOk : bool)
    (root : path) (t1 t2 : node) (devOk : bool)
    (Hwf : wf t1) (Hsame : same_contents t1 t2) :
  main projectType env createOk root (Some t1) devOk =
  main projectType env createOk root (Some t2) devOk.
Proof.
  unfold main, WalkDir. rewrite (view_same t1 Hwf t2 Hsame). reflexivity.
Qed.

Definition vendorTreeReordered : node :=
  Dir "proj" true
    [Dir ".git" true [File "config" textFile];
     Dir "vendor" true [Dir "sub" true [File "c.go" textFile]; File "b.go" textFile];
     File "a.go" textFile].

Lemma run_deterministic_witness :
  wf vendorTree /\ same_contents vendorTree vendorTreeReordered /\
  main "auto" vendorEnv true [] (Some vendorTree) true =
  main "auto" vendorEnv true [] (Some vendorTreeReordered) true.
Proof.
  assert (Hwf : wf vendorTree) by (vm_compute; reflexivity).
  assert (Hsame : same_contents vendorTree vendorTreeReordered).
  { unfold vendorTree, vendorTreeReordered.
    eapply same_dir.
    - repeat constructor.
      + eapply same_dir; [repeat constructor|].
        * eapply same_dir; [repeat constructor|reflexivity].
        * apply Permutation_swap.
      + eapply same_dir; [repeat constructor|reflexivity].
    - cbn. etrans; [apply Permutation_swap|]. etrans; [apply perm_skip, Permutation_swap|].
      apply Permutation_swap. }
  split; [exact Hwf|]. split; [exact Hsame|].
  exact (run_deterministic "auto" vendorEnv true [] _ _ true Hwf Hsame).
Defined.

(* ================================================================== *)
(** * Further properties of the code *)

(** ** [mergeMaps] *)

Lemma mergeMaps_app_lookup (ms : list (gmap string string)) (m : gmap string string)
    (k : string) :
  mergeMaps (ms ++ [m]) !! k =
    match m !! k with Some v => Some v | None => mergeMaps ms !! k end.
Proof. unfold mergeMaps. rewrite fold_left_app. cbn [fold_left]. apply map_fold_insert_lookup. Qed.

Lemma mergeMaps_after_none (pre : list (gmap string string)) (m : gmap string string)
    (k v : string) (post : list (gmap string string)) :
  m !! k = Some v -> Forall (fun m' => m' !! k = None) post ->
  mergeMaps (pre ++ m :: post) !! k = Some v.
Proof.
  intros Hm. induction post as [|m' post IH] using rev_ind; intros Hpost.
  - rewrite mergeMaps_app_lookup, Hm. reflexivity.
  - apply Forall_app in Hpost as [Hpost Hm'].
    inversion Hm' as [|? ? Hm'k _]; subst.
    replace (pre ++ m :: post ++ [m']) with ((pre ++ m :: post) ++ [m'])
      by (rewrite <- app_assoc; reflexivity).
    rewrite mergeMaps_app_lookup, Hm'k. apply IH, Hpost.
Qed.

(** [mergeMaps] gives each key the value of the last map that has it, and
    no value to a key that no map has. *)
Theorem mergeMaps_last_wins (ms : list (gmap string string)) (k v : string) :
  (mergeMaps ms !! k = Some v <->
     exists pre m post, ms = pre ++ m :: post /\ m !! k = Some v /\
       Forall (fun m' => m' !! k = None) post) /\
  (mergeMaps ms !! k = None <-> Forall (fun m => m !! k = None) ms).
Proof.
  split.
  - split.
    + induction ms as [|m ms IH] using rev_ind.
      * unfold mergeMaps. cbn. rewrite lookup_empty. discriminate.
      * rewrite mergeMaps_app_lookup. destruct (m !! k) as [v'|] eqn:Hm.
        -- intros [= <-]. exists ms, m, []. split; [reflexivity|]. split; [exact Hm|constructor].
        -- intros H. destruct (IH H) as (pre & m0 & post & -> & Hm0 & Hpost).
           exists pre, m0, (post ++ [m]). split; [rewrite <- app_assoc; reflexivity|].
           split; [exact Hm0|]. apply Forall_app. split; [exact Hpost|constructor; [exact Hm|constructor]].
    + intros (pre & m & post & -> & Hm & Hpost). apply mergeMaps_after_none; assumption.
  - induction ms as [|m ms IH] using rev_ind.
    + split; [constructor|]. intros _. unfold mergeMaps. cbn. apply lookup_empty.
    + rewrite mergeMaps_app_lookup, Forall_app. destruct (m !! k) as [v'|] eqn:Hm.
      * split; [discriminate|]. intros [_ H]. inversion H; congruence.
      * rewrite IH. split; [intros H; split; [exact H|constructor; [exact Hm|constructor]]|].
        intros [H _]. exact H.
Qed.

(** ** [detectProjectType] *)

Lemma firstLandmark_none (statOk : string -> bool) (order : list (string * string)) :
  firstLandmark statOk order = None <-> forall l t, In (l, t) order -> statOk l = false.
Proof.
  induction order as [|[l t] rest IH]; cbn [firstLandmark In].
  - split; [intros _ l t []|reflexivity].
  - destruct (statOk l) eqn:Hl.
    + split; [discriminate|]. intros H. rewrite (H l t (or_introl eq_refl)) in Hl. discriminate.
    + rewrite IH. split.
      * intros H l' t' [[= -> ->]|Hin]; [exact Hl|exact (H l' t' Hin)].
      * intros H l' t' Hin. exact (H l' t' (or_intror Hin)).
Qed.

Lemma firstLandmark_some (statOk : string -> bool) (order : list (string * string))
    (t : string) :
  firstLandmark statOk order = Some t -> exists l, In (l, t) order /\ statOk l = true.
Proof.
  induction order as [|[l t'] rest IH]; cbn [firstLandmark]; [discriminate|].
  destruct (statOk l) eqn:Hl.
  - intros [= <-]. exists l. split; [left; reflexivity|exact Hl].
  - intros H. destruct (IH H) as (l' & Hin & Hok). exists l'. split; [right; exact Hin|exact Hok].
Qed.

(** Detection falls back to "generic" exactly when no landmark file
    exists and the glob [*.xcodeproj] matches nothing. *)
Theorem detect_generic_iff (env : DetectEnv)
    (Horder : Permutation (landmarkOrder env) landmarkFiles) :
  detectProjectType env = "generic" <->
    (forall l t, In (l, t) landmarkFiles -> statOk env l = false) /\
    xcodeprojMatches env = [].
Proof.
  unfold detectProjectType.
  destruct (firstLandmark _ _) as [t|] eqn:Hfirst.
  - split; [|intros [Hnone _];
              apply firstLandmark_some in Hfirst as (l & Hin & Hok);
              rewrite (Hnone l t (Permutation_in _ Horder Hin)) in Hok; discriminate].
    intros ->. apply firstLandmark_some in Hfirst as (l & Hin & _).
    apply (Permutation_in _ Horder) in Hin. cbn [landmarkFiles In] in Hin.
    destruct Hin as [H|[H|[H|[H|[H|[]]]]]]; discriminate.
  - rewrite firstLandmark_none in Hfirst.
    assert (Hall : forall l t, In (l, t) landmarkFiles -> statOk env l = false)
      by (intros l t Hin; apply (Hfirst l t), (Permutation_in _ (Permutation_sym Horder)), Hin).
    destruct (xcodeprojMatches env) as [|x xs]; cbn.
    + split; [intros _; split; [exact Hall|reflexivity]|reflexivity].
    + split; [discriminate|intros [_ H]; discriminate].
Qed.

(** When landmark files exist, the detected type is the type of one of
    them (the [*.xcodeproj] glob is not consulted), and since the Go map
    is ranged in no fixed order, each of them is the result of some
    iteration order. *)
Theorem detect_present_landmarks (env : DetectEnv)
    (Horder : Permutation (landmarkOrder env) landmarkFiles)
    (Hsome : exists l t, In (l, t) landmarkFiles /\ statOk env l = true) :
  (exists l, In (l, detectProjectType env) landmarkFiles /\ statOk env l = true) /\
  (forall l t, In (l, t) landmarkFiles -> statOk env l = true ->
     exists order, Permutation order landmarkFiles /\
       detectProjectType {| landmarkOrder := order; statOk := statOk env;
                            xcodeprojMatches := xcodeprojMatches env |} = t).
Proof.
  split.
  - unfold detectProjectType.
    destruct (firstLandmark _ _) as [t|] eqn:Hfirst.
    + apply firstLandmark_some in Hfirst as (l & Hin & Hok).
      exists l. split; [exact (Permutation_in _ Horder Hin)|exact Hok].
    + exfalso. rewrite firstLandmark_none in Hfirst.
      destruct Hsome as (l & t & Hin & Hok).
      rewrite (Hfirst l t (Permutation_in _ (Permutation_sym Horder) Hin)) in Hok. discriminate.
  - intros l t Hin Hok. apply in_split in Hin as (pre & post & Hsplit).
    exists ((l, t) :: pre ++ post). split.
    + rewrite Hsplit. apply Permutation_middle.
    + unfold detectProjectType. cbn [landmarkOrder statOk firstLandmark]. rewrite Hok. reflexivity.
Qed.

Lemma detect_generic_iff_witness :
  Permutation (landmarkOrder vendorEnv) landmarkFiles /\
  detectProjectType vendorEnv = "generic".
Proof.
  assert (Hp : Permutation (landmarkOrder vendorEnv) landmarkFiles) by reflexivity.
  split; [exact Hp|]. apply (proj2 (detect_generic_iff vendorEnv Hp)).
  split; [intros l t _; reflexivity|reflexivity].
Defined.

(** A directory holding every landmark file. *)
Definition allLandmarksEnv : DetectEnv :=
  {| landmarkOrder := landmarkFiles; statOk := fun _ => true; xcodeprojMatches := [] |}.

Lemma detect_present_landmarks_witness :
  Permutation (landmarkOrder allLandmarksEnv) landmarkFiles /\
  exists order, Permutation order landmarkFiles /\
    detectProjectType {| landmarkOrder := order; statOk := fun _ => true;
                         xcodeprojMatches := [] |} = "rust".
Proof.
  assert (Hp : Permutation (landmarkOrder allLandmarksEnv) landmarkFiles) by reflexivity.
  assert (Hs : exists l t, In (l, t) landmarkFiles /\ statOk allLandmarksEnv l = true)
    by (exists "go.mod", "go"; split; [left; reflexivity|reflexivity]).
  split; [exact Hp|].
  apply (proj2 (detect_present_landmarks allLandmarksEnv Hp Hs) "Cargo.toml" "rust").
  - right. left. reflexivity.
  - reflexivity.
Defined.

(** ** [filepath.Ext] *)

Lemma get_lt (s : string) (j : nat) :
  (j < String.length s)%nat -> exists c, String.get j s = Some c.
Proof.
  revert j. induction s as [|c s IH]; intros j Hj; cbn in Hj; [lia|].
  destruct j as [|j]; [exists c; reflexivity|]. apply IH. lia.
Qed.

Lemma get_some_lt (s : string) (j : nat) (c : ascii) :
  String.get j s = Some c -> (j < String.length s)%nat.
Proof.
  revert j. induction s as [|c' s IH]; intros j Hj; [discriminate|].
  destruct j as [|j]; cbn; [lia|]. apply IH in Hj. lia.
Qed.

Lemma substring_full (s : string) : substring 0 (String.length s) s = s.
Proof. induction s as [|c s IH]; [reflexivity|]. exact (f_equal (String c) IH). Qed.

Lemma substring_split (s : string) (j : nat) :
  (substring 0 j s ++ substring j (String.length s - j) s)%string = s.
Proof.
  revert j. induction s as [|c s IH]; intros j; destruct j as [|j]; try reflexivity.
  - cbn. rewrite substring_full. reflexivity.
  - cbn [substring String.length Nat.sub]. exact (f_equal (String c) (IH j)).
Qed.

Lemma append_empty_right (s : string) : (s ++ "")%string = s.
Proof. induction s as [|c s IH]; [reflexivity|]. exact (f_equal (String c) IH). Qed.

Lemma ext_loop_spec (s : string) :
  forall i, (i <= String.length s)%nat ->
  (ext_loop i s = "" /\
     forall k, (k < i)%nat -> String.get k s = Some "."%char ->
       exists k', (k < k' < i)%nat /\ String.get k' s = Some "/"%char) \/
  (exists j, (j < i)%nat /\ String.get j s = Some "."%char /\
     ext_loop i s = substring j (String.length s - j) s /\
     forall k c, (j < k < i)%nat -> String.get k s = Some c ->
       c <> "."%char /\ c <> "/"%char).
Proof.
  induction i as [|i IH]; intros Hle.
  - left. split; [reflexivity|intros k Hk; lia].
  - cbn [ext_loop]. destruct (get_lt s i) as [c Hc]; [lia|]. rewrite Hc.
    destruct (Ascii.eqb c "/") eqn:Es.
    + apply Ascii.eqb_eq in Es. subst c. left. split; [reflexivity|].
      intros k Hk Hget. destruct (decide (k = i)) as [->|Hne].
      * rewrite Hc in Hget. discriminate.
      * exists i. split; [lia|exact Hc].
    + destruct (Ascii.eqb c ".") eqn:Ed.
      * apply Ascii.eqb_eq in Ed. subst c. right. exists i.
        split; [lia|]. split; [exact Hc|]. split; [reflexivity|]. intros k c Hk; lia.
      * destruct (IH ltac:(lia)) as [[He Hall]|(j & Hj & Hgj & He & Hall)].
        -- left. split; [exact He|]. intros k Hk Hget.
           destruct (decide (k = i)) as [->|Hne].
           { rewrite Hc in Hget. injection Hget as ->. rewrite Ascii.eqb_refl in Ed. discriminate. }
           destruct (Hall k ltac:(lia) Hget) as (k' & Hk' & Hg'). exists k'. split; [lia|exact Hg'].
        -- right. exists j. split; [lia|]. split; [exact Hgj|]. split; [exact He|].
           intros k c' Hk Hget. destruct (decide (k = i)) as [->|Hne].
           { rewrite Hc in Hget. injection Hget as <-.
             split; intros ->; [rewrite Ascii.eqb_refl in Ed|rewrite Ascii.eqb_refl in Es];
               discriminate. }
           apply (Hall k c'); [lia|exact Hget].
Qed.

(** [filepath.Ext] returns a suffix of the name.  It is empty when every
    dot of the name is followed by a separator (the last element has no
    dot); otherwise it starts at the last dot of the last element and
    holds no further dot or separator, so an extension never has two
    dots. *)
Theorem filepath_Ext_spec (name : string) :
  (exists pre, (pre ++ filepath_Ext name)%string = name) /\
  ((filepath_Ext name = "" /\
      forall k, String.get k name = Some "."%char ->
        exists k', (k < k')%nat /\ String.get k' name = Some "/"%char) \/
   (String.get 0 (filepath_Ext name) = Some "."%char /\
      forall k c, String.get (S k) (filepath_Ext name) = Some c ->
        c <> "."%char /\ c <> "/"%char)).
Proof.
  unfold filepath_Ext.
  destruct (ext_loop_spec name (String.length name) (le_n _))
    as [[He Hall]|(j & Hj & Hgj & He & Hall)]; rewrite He.
  - split; [exists name; apply append_empty_right|]. left. split; [reflexivity|].
    intros k Hget. destruct (Hall k (get_some_lt _ _ _ Hget) Hget) as (k' & Hk' & Hg').
    exists k'. split; [lia|exact Hg'].
  - split; [exists (substring 0 j name); apply substring_split|]. right. split.
    + rewrite substring_correct1 by lia. exact Hgj.
    + intros k c Hget. destruct (Nat.lt_ge_cases (S k) (String.length name - j)).
      * rewrite substring_correct1 in Hget by lia. apply (Hall (S k + j)); [lia|exact Hget].
      * rewrite substring_correct2 in Hget by lia. discriminate.
Qed.

(** ** Every file the walk reaches gets an outcome *)

Lemma grows_refl (s : State) : grows s s.
Proof. split; [exists []; rewrite app_nil_r; reflexivity|tauto]. Qed.

Lemma grows_trans (s1 s2 s3 : State) : grows s1 s2 -> grows s2 s3 -> grows s1 s3.
Proof.
  intros [[rs1 H1] L1] [[rs2 H2] L2]. split.
  - exists (rs1 ++ rs2). rewrite H2, H1, app_assoc. reflexivity.
  - intros reason q H. apply L2, L1, H.
Qed.

Lemma grows_emit (e : Event) (s : State) : grows s (emit e s).
Proof. split; [exists []; cbn; rewrite app_nil_r; reflexivity|intros r q H; exact H]. Qed.

Lemma grows_setWriter (w : Writer) (s : State) : grows s (setWriter w s).
Proof. split; [exists []; cbn; rewrite app_nil_r; reflexivity|intros r q H; exact H]. Qed.

Lemma grows_addRecord (r : BundleRecord) (s : State) : grows s (addRecord r s).
Proof. split; [exists [r]; reflexivity|tauto]. Qed.

Lemma grows_appendSkip (reason : string) (p : path) (s : State) :
  grows s (appendSkip reason p s).
Proof.
  split; [exists []; rewrite app_nil_r; reflexivity|].
  intros r q (ps & Hps & Hin). unfold ledger_has, appendSkip. cbn [skippedFiles].
  destruct (decide (reason = r)) as [<-|Hne].
  - rewrite lookup_insert_eq, Hps. eexists. split; [reflexivity|]. apply in_or_app. left. exact Hin.
  - rewrite lookup_insert_ne by exact Hne. exists ps. split; assumption.
Qed.

Lemma ledger_has_appendSkip_self (reason : string) (p : path) (s : State) :
  ledger_has (appendSkip reason p s) reason p.
Proof.
  unfold ledger_has, appendSkip. cbn [skippedFiles]. rewrite lookup_insert_eq.
  eexists. split; [reflexivity|]. apply in_or_app. right. left. reflexivity.
Qed.

Lemma handled_grows (root : path) (s s' : State) (q : path) :
  grows s s' -> handled root s q -> handled root s' q.
Proof.
  intros [[rs Hrs] Hl] [(rec & Hin & Hrec)|(reason & Hled)].
  - left. exists rec. split; [rewrite Hrs; apply in_or_app; left; exact Hin|exact Hrec].
  - right. exists reason. apply Hl, Hled.
Qed.

Lemma visitFile_grows (cfg : Config) (root p : path) (name : string) (fd : FileData)
    (s : State) :
  grows s (fst (visitFile cfg root p name fd s)).
Proof.
  unfold visitFile.
  destruct (Contains _ _ || Contains _ _); [apply grows_appendSkip|].
  destruct (isBinaryFile fd) as [[|]|]; cbn [fst].
  - eapply grows_trans; [apply grows_emit|apply grows_appendSkip].
  - destruct (os_ReadFile fd) as [content|].
    + destruct (writer_Write _ _) as [w1 []]; cbn [negb fst];
        [|eapply grows_trans; [apply grows_emit|];
          eapply grows_trans; [apply grows_emit|apply grows_setWriter]].
      destruct (writer_Write w1 _) as [w2 []]; cbn [negb fst];
        [|eapply grows_trans; [apply grows_emit|];
          eapply grows_trans; [apply grows_emit|apply grows_setWriter]].
      destruct (writer_Write w2 _) as [w3 []]; cbn [negb fst];
        [|eapply grows_trans; [apply grows_emit|];
          eapply grows_trans; [apply grows_emit|apply grows_setWriter]].
      eapply grows_trans; [apply grows_emit|].
      eapply grows_trans; [apply grows_emit|].
      eapply grows_trans; [apply grows_setWriter|apply grows_addRecord].
    + eapply grows_trans; [apply grows_emit|].
      eapply grows_trans; [apply grows_emit|].
      eapply grows_trans; [apply grows_appendSkip|apply grows_emit].
  - eapply grows_trans; [apply grows_emit|].
    eapply grows_trans; [apply grows_appendSkip|apply grows_emit].
Qed.

Lemma walkEntries_grows (walk : path -> node -> State -> State * option WalkErr)
    (p : path) (l : list node) :
  Forall (fun c => forall q s, grows s (fst (walk q c s))) l ->
  forall s, grows s (fst (walkEntries walk p l s)).
Proof.
  induction 1 as [|c l Hc Hl IH]; intros s; cbn [walkEntries]; [apply grows_refl|].
  pose proof (Hc (p ++ [node_name c]) s) as H1.
  destruct (walk (p ++ [node_name c]) c s) as [s1 [e|]]; cbn [fst] in H1 |- *.
  - exact H1.
  - exact (grows_trans _ _ _ H1 (IH s1)).
Qed.

Lemma walkDir_grows (cfg : Config) (root : path) :
  forall n p s, grows s (fst (walkDir cfg root p n s)).
Proof.
  induction n as [nm fd|nm ok kids IHkids] using node_ind'; intros p s; cbn [walkDir].
  - eapply grows_trans; [apply grows_emit|apply visitFile_grows].
  - eapply grows_trans; [apply grows_emit|].
    destruct (Contains _ nm); [apply grows_appendSkip|].
    eapply grows_trans; [apply grows_emit|].
    destruct ok; cbn [negb fst]; [|apply grows_emit].
    apply walkEntries_grows.
    apply List.Forall_forall. intros c Hin q s1.
    rewrite List.Forall_forall in IHkids. apply IHkids, Hin.
Qed.

Lemma visitFile_handled (cfg : Config) (root p : path) (name : string) (fd : FileData)
    (s : State) :
  snd (visitFile cfg root p name fd s) = None ->
  handled root (fst (visitFile cfg root p name fd s)) p.
Proof.
  unfold visitFile.
  destruct (Contains _ _ || Contains _ _).
  { intros _. right. eexists. apply ledger_has_appendSkip_self. }
  destruct (isBinaryFile fd) as [[|]|]; cbn [fst snd].
  - intros _. right. eexists. apply ledger_has_appendSkip_self.
  - destruct (os_ReadFile fd) as [content|].
    + destruct (writer_Write _ _) as [w1 []]; cbn [negb fst snd]; [|discriminate].
      destruct (writer_Write w1 _) as [w2 []]; cbn [negb fst snd]; [|discriminate].
      destruct (writer_Write w2 _) as [w3 []]; cbn [negb fst snd]; [|discriminate].
      intros _. left. eexists. split.
      * cbn [addRecord bundled]. apply in_or_app. right. left. reflexivity.
      * reflexivity.
    + intros _. right. eexists. apply ledger_has_appendSkip_self.
  - intros _. right. eexists. apply ledger_has_appendSkip_self.
Qed.

Lemma walkEntries_none_child (walk : path -> node -> State -> State * option WalkErr)
    (p : path) (Hg : forall q c s, grows s (fst (walk q c s))) :
  forall l s s', walkEntries walk p l s = (s', None) ->
  forall c, In c l ->
  exists s1 s2, walk (p ++ [node_name c]) c s1 = (s2, None) /\ grows s2 s'.
Proof.
  induction l as [|c0 l IH]; intros s s' Hw c Hin; [destruct Hin|].
  cbn [walkEntries] in Hw.
  destruct (walk (p ++ [node_name c0]) c0 s) as [s1 [e|]] eqn:E; [discriminate|].
  destruct Hin as [<-|Hin].
  - exists s, s1. split; [exact E|].
    assert (Hall : Forall (fun c => forall q s, grows s (fst (walk q c s))) l)
      by (apply List.Forall_forall; intros c _ q s2; apply Hg).
    pose proof (walkEntries_grows walk p l Hall s1) as Hgr.
    rewrite Hw in Hgr. exact Hgr.
  - exact (IH s1 s' Hw c Hin).
Qed.

Lemma walkDir_handled (cfg : Config) (root : path) :
  forall n p s s', walkDir cfg root p n s = (s', None) ->
  (forall r nm fd, reach cfg n r (File nm fd) -> handled root s' (p ++ r)) /\
  (forall r nm ok kids, reach cfg n r (Dir nm ok kids) -> nm ∈ ignoreDirs cfg ->
     ledger_has s' "Ignored Directory" (p ++ r)).
Proof.
  induction n as [nm fd|nm ok kids IHkids] using node_ind'; intros p s s' Hw.
  - cbn [walkDir] in Hw.
    pose proof (visitFile_handled cfg root p nm fd (emit (EvVisit p) s)) as Hh.
    rewrite Hw in Hh. cbn [fst snd] in Hh. specialize (Hh eq_refl).
    split.
    + intros r nm' fd' Hr. inversion Hr; subst. rewrite app_nil_r. exact Hh.
    + intros r nm' ok' kids' Hr. inversion Hr.
  - cbn [walkDir] in Hw.
    destruct (Contains (ignoreDirs cfg) nm) eqn:Hc.
    + injection Hw as <-. split.
      * intros r nm' fd' Hr. inversion Hr as [|? ? ? ? ? ? Hnot]; subst.
        apply bool_decide_eq_true_1 in Hc. contradiction.
      * intros r nm' ok' kids' Hr _. inversion Hr as [|? ? ? ? ? ? Hnot]; subst.
        -- rewrite app_nil_r. apply ledger_has_appendSkip_self.
        -- apply bool_decide_eq_true_1 in Hc. contradiction.
    + apply bool_decide_eq_false_1 in Hc.
      destruct ok; cbn [negb] in Hw; [|discriminate].
      assert (Hchild : forall c r, In c kids ->
                (forall nm' fd', reach cfg c r (File nm' fd') ->
                   handled root s' (p ++ node_name c :: r)) /\
                (forall nm' ok' kids', reach cfg c r (Dir nm' ok' kids') -> nm' ∈ ignoreDirs cfg ->
                   ledger_has s' "Ignored Directory" (p ++ node_name c :: r))).
      { intros c r Hin.
        destruct (walkEntries_none_child (walkDir cfg root) p (fun q c s0 => walkDir_grows cfg root c q s0)
                    kids _ _ Hw c Hin) as (s1 & s2 & Hc1 & Hg).
        rewrite List.Forall_forall in IHkids.
        destruct (IHkids c Hin _ _ _ Hc1) as [Hf Hd].
        replace (p ++ node_name c :: r) with ((p ++ [node_name c]) ++ r)
          by (rewrite <- app_assoc; reflexivity).
        split.
        - intros nm' fd' Hr. exact (handled_grows _ _ _ _ Hg (Hf r nm' fd' Hr)).
        - intros nm' ok' kids' Hr Hign. exact (proj2 Hg _ _ (Hd r nm' ok' kids' Hr Hign)). }
      split.
      * intros r nm' fd' Hr. inversion Hr as [|? ? ? c r' ? _ Hin Hr']; subst.
        exact (proj1 (Hchild c r' Hin) nm' fd' Hr').
      * intros r nm' ok' kids' Hr Hign. inversion Hr as [|? ? ? c r' ? _ Hin Hr']; subst.
        -- contradiction.
        -- exact (proj2 (Hchild c r' Hin) nm' ok' kids' Hr' Hign).
Qed.

Lemma reach_view (cfg : Config) (n : node) (r : path) (m : node) :
  reach cfg n r m -> reach cfg (view n) r (view m).
Proof.
  induction 1 as [n|nm ok kids c r m Hnot Hin Hr IH]; [constructor|].
  cbn [view]. rewrite <- (node_name_view c). apply reach_child; [exact Hnot| |exact IH].
  apply (Permutation_in _ (Permutation_sym (ReadDir_perm _))), in_map, Hin.
Qed.

Lemma main_completed (projectType : string) (env : DetectEnv) (createOk : bool)
    (root : path) (t : node) (devOk : bool) (pc : ProjectConfig) (s : State) :
  loadConfig projectType env = Some pc ->
  main projectType env createOk root (Some t) devOk = Completed s ->
  walkDir (resolveConfig pc) root root (view t) (emptyState (newWriter devOk)) = (s, None).
Proof.
  intros Hcfg. unfold main, WalkDir. rewrite Hcfg.
  destruct createOk; cbn [negb]; [|discriminate].
  destruct (walkDir _ _ _ _ _) as [s0 [e|]]; [discriminate|].
  intros [= ->]. reflexivity.
Qed.

(** On a run that completes, every file the walk reaches (not below an
    ignored directory) is bundled or recorded in the ledger, and every
    ignored directory it reaches is recorded: nothing is dropped
    silently. *)
Theorem completed_run_accounts_for_all (projectType : string) (env : DetectEnv)
    (createOk : bool) (root : path) (t : node) (devOk : bool) (pc : ProjectConfig)
    (s : State)
    (Hcfg : loadConfig projectType env = Some pc)
    (Hrun : main projectType env createOk root (Some t) devOk = Completed s) :
  (forall r nm fd, reach (resolveConfig pc) t r (File nm fd) ->
     (exists rec, In rec (bundled s) /\ relativePath rec = r) \/
     (exists reason, ledger_has s reason (root ++ r))) /\
  (forall r nm ok kids, reach (resolveConfig pc) t r (Dir nm ok kids) ->
     nm ∈ ignoreDirs (resolveConfig pc) -> ledger_has s "Ignored Directory" (root ++ r)).
Proof.
  destruct (walkDir_handled _ root _ _ _ _ (main_completed _ _ _ _ _ _ _ _ Hcfg Hrun))
    as [Hf Hd].
  split.
  - intros r nm fd Hr. destruct (Hf r nm fd (reach_view _ _ _ _ Hr))
      as [(rec & Hin & Hrec)|Hl]; [|right; exact Hl].
    left. exists rec. split; [exact Hin|]. rewrite Hrec. apply relPath_root.
  - intros r nm ok kids Hr Hign. exact (Hd r nm ok _ (reach_view _ _ _ _ Hr) Hign).
Qed.

Lemma completed_run_accounts_for_all_witness :
  loadConfig "go" vendorEnv = Some (preset "go") /\
  main "go" vendorEnv true [] (Some vendorTree) true =
    Completed (fst (WalkDir (resolveConfig (preset "go")) [] (Some vendorTree) (newWriter true))) /\
  ((exists rec, In rec (bundled (fst (WalkDir (resolveConfig (preset "go")) []
                                        (Some vendorTree) (newWriter true)))) /\
                relativePath rec = ["a.go"]) \/
   (exists reason, ledger_has (fst (WalkDir (resolveConfig (preset "go")) []
                                      (Some vendorTree) (newWriter true))) reason ["a.go"])).
Proof.
  assert (Hcfg : loadConfig "go" vendorEnv = Some (preset "go")) by (vm_compute; reflexivity).
  assert (Hrun : main "go" vendorEnv true [] (Some vendorTree) true =
    Completed (fst (WalkDir (resolveConfig (preset "go")) [] (Some vendorTree) (newWriter true))))
    by (vm_compute; reflexivity).
  split; [exact Hcfg|]. split; [exact Hrun|].
  apply (proj1 (completed_run_accounts_for_all "go" vendorEnv true [] vendorTree true
                  (preset "go") _ Hcfg Hrun) ["a.go"] "a.go" textFile).
  apply (reach_child _ "proj" true _ (File "a.go" textFile) [] (File "a.go" textFile)).
  - apply (bool_decide_eq_false_1 ("proj" ∈ ignoreDirs (resolveConfig (preset "go")))).
    vm_compute. reflexivity.
  - left. reflexivity.
  - constructor.
Defined.

(** ** The records of a run: order and origin *)

Lemma path_lt_app (x a b : path) : path_lt a b -> path_lt (x ++ a) (x ++ b).
Proof. induction x as [|y x IH]; intros H; [exact H|]. cbn. right. split; [reflexivity|exact (IH H)]. Qed.

Lemma path_lt_irrefl (a : path) : ~ path_lt a a.
Proof.
  induction a as [|y a IH]; cbn; [tauto|].
  intros [[_ H]|[_ H]]; [exact (H eq_refl)|exact (IH H)].
Qed.

Lemma StronglySorted_app_cross {A} (R : A -> A -> Prop) (l1 l2 : list A) :
  StronglySorted R l1 -> StronglySorted R l2 ->
  (forall a b, In a l1 -> In b l2 -> R a b) -> StronglySorted R (l1 ++ l2).
Proof.
  induction 1 as [|a l1 Hs IH Ha]; intros Hs2 Hx; [exact Hs2|].
  cbn [app]. constructor.
  - apply IH; [exact Hs2|]. intros x y Hx1 Hy. apply Hx; [right; exact Hx1|exact Hy].
  - apply List.Forall_app. split; [exact Ha|].
    apply List.Forall_forall. intros b Hb. apply Hx; [left; reflexivity|exact Hb].
Qed.

Lemma StronglySorted_NoDup_irrefl {A} (R : A -> A -> Prop) (l : list A) :
  (forall a, ~ R a a) -> StronglySorted R l -> NoDup l.
Proof.
  intros Hirr. induction 1 as [|a l Hs IH Ha]; constructor; [|exact IH].
  intros Hin. apply list_elem_of_In in Hin. rewrite List.Forall_forall in Ha.
  exact (Hirr a (Ha a Hin)).
Qed.

Lemma visitFile_recs (cfg : Config) (root x : path) (name : string) (fd : FileData)
    (s : State) :
  exists rs, bundled (fst (visitFile cfg root (root ++ x) name fd s)) = bundled s ++ rs /\
    StronglySorted path_lt (map relativePath rs) /\
    Forall (fun rec => relativePath rec = x /\ bundled_from cfg name fd rec) rs.
Proof.
  unfold visitFile.
  destruct (Contains _ _ || Contains _ _) eqn:Hign.
  { exists []. rewrite app_nil_r. split; [reflexivity|split; constructor]. }
  apply orb_false_iff in Hign as [Hext Hname].
  destruct (isBinaryFile fd) as [[|]|] eqn:Hbin; cbn [fst];
    try (exists []; rewrite app_nil_r; split; [reflexivity|split; constructor]).
  destruct (os_ReadFile fd) as [content|] eqn:Hread;
    [|exists []; rewrite app_nil_r; split; [reflexivity|split; constructor]].
  destruct (writer_Write _ _) as [w1 []]; cbn [negb fst];
    [|exists []; rewrite app_nil_r; split; [reflexivity|split; constructor]].
  destruct (writer_Write w1 _) as [w2 []]; cbn [negb fst];
    [|exists []; rewrite app_nil_r; split; [reflexivity|split; constructor]].
  destruct (writer_Write w2 _) as [w3 []]; cbn [negb fst];
    [|exists []; rewrite app_nil_r; split; [reflexivity|split; constructor]].
  eexists. split; [reflexivity|]. split; [repeat constructor|].
  constructor; [|constructor]. cbn [relativePath]. split.
  - apply (relPath_root root x).
  - repeat split; assumption.
Qed.

Lemma walkEntries_recs (root x : path) (W : Prop)
    (walk : path -> node -> State -> State * option WalkErr)
    (F : node -> path -> BundleRecord -> Prop) (l : list node) :
  (W -> StronglySorted name_le l /\ NoDup (map node_name l)) ->
  Forall (fun c => forall s, exists rs,
     bundled (fst (walk ((root ++ x) ++ [node_name c]) c s)) = bundled s ++ rs /\
     (W -> StronglySorted path_lt (map relativePath rs)) /\
     Forall (fun rec => exists r, relativePath rec = x ++ node_name c :: r /\ F c r rec) rs) l ->
  forall s, exists rs,
     bundled (fst (walkEntries walk (root ++ x) l s)) = bundled s ++ rs /\
     (W -> StronglySorted path_lt (map relativePath rs)) /\
     Forall (fun rec => exists c r, In c l /\ relativePath rec = x ++ node_name c :: r /\
                                    F c r rec) rs.
Proof.
  intros HW Hall. induction Hall as [|c l Hc Hl IH]; intros s.
  { exists []. rewrite app_nil_r. split; [reflexivity|split; [intros _; constructor|constructor]]. }
  assert (HW' : W -> StronglySorted name_le l /\ NoDup (map node_name l)).
  { intros Hw. destruct (HW Hw) as [Hs Hnd]. inversion Hs; subst.
    cbn [map] in Hnd. apply NoDup_cons in Hnd as [_ Hnd]. split; assumption. }
  specialize (IH HW').
  cbn [walkEntries]. destruct (Hc s) as (rs1 & Hb1 & Hso1 & Hf1).
  destruct (walk ((root ++ x) ++ [node_name c]) c s) as [s1 [e|]]; cbn [fst] in Hb1 |- *.
  - exists rs1. split; [exact Hb1|]. split; [exact Hso1|].
    eapply List.Forall_impl; [|exact Hf1]. intros rec (r & Hr & HF).
    exists c, r. split; [left; reflexivity|split; assumption].
  - destruct (IH s1) as (rs2 & Hb2 & Hso2 & Hf2).
    exists (rs1 ++ rs2). split; [rewrite Hb2, Hb1, app_assoc; reflexivity|]. split.
    + intros Hw. destruct (HW Hw) as [Hs Hnd]. inversion Hs as [|? ? _ Hcl]; subst.
      cbn [map] in Hnd. apply NoDup_cons in Hnd as [Hnotin _].
      rewrite map_app. apply StronglySorted_app_cross; [exact (Hso1 Hw)|exact (Hso2 Hw)|].
      intros a b Ha Hb. apply in_map_iff in Ha as (ra & <- & Ha).
      apply in_map_iff in Hb as (rb & <- & Hb).
      rewrite List.Forall_forall in Hf1, Hf2, Hcl.
      destruct (Hf1 ra Ha) as (r1 & -> & _).
      destruct (Hf2 rb Hb) as (c' & r2 & Hin' & -> & _).
      apply path_lt_app. cbn. left. split; [exact (Hcl c' Hin')|].
      intros Heq. apply Hnotin. rewrite Heq. apply list_elem_of_In, in_map, Hin'.
    + apply List.Forall_app. split.
      * eapply List.Forall_impl; [|exact Hf1]. intros rec (r & Hr & HF).
        exists c, r. split; [left; reflexivity|split; assumption].
      * eapply List.Forall_impl; [|exact Hf2]. intros rec (c' & r & Hin & Hr & HF).
        exists c', r. split; [right; exact Hin|split; assumption].
Qed.

Lemma walkDir_recs (cfg : Config) (root : path) :
  forall t x s, exists rs,
    bundled (fst (walkDir cfg root (root ++ x) (view t) s)) = bundled s ++ rs /\
    (wf t -> StronglySorted path_lt (map relativePath rs)) /\
    Forall (fun rec => exists r nm fd, relativePath rec = x ++ r /\
              reach cfg (view t) r (File nm fd) /\ bundled_from cfg nm fd rec) rs.
Proof.
  induction t as [nm fd|nm ok kids IHkids] using node_ind'; intros x s; cbn [view walkDir].
  - destruct (visitFile_recs cfg root x nm fd (emit (EvVisit (root ++ x)) s))
      as (rs & Hb & Hso & Hf).
    exists rs. split; [exact Hb|]. split; [intros _; exact Hso|].
    eapply List.Forall_impl; [|exact Hf]. intros rec [Hr Hfrom].
    exists [], nm, fd. rewrite app_nil_r. split; [exact Hr|]. split; [constructor|exact Hfrom].
  - destruct (Contains (ignoreDirs cfg) nm) eqn:Hc.
    { exists []. rewrite app_nil_r. split; [reflexivity|split; [intros _; constructor|constructor]]. }
    apply bool_decide_eq_false_1 in Hc.
    destruct ok; cbn [negb fst];
      [|exists []; rewrite app_nil_r; split; [reflexivity|split; [intros _; constructor|constructor]]].
    destruct (walkEntries_recs root x (wf (Dir nm true kids)) (walkDir cfg root)
                (fun c r rec => exists nm' fd', reach cfg c r (File nm' fd') /\
                                                bundled_from cfg nm' fd' rec)
                (ReadDir (map view kids)))
      with (s := emit (EvReadDir (root ++ x)) (emit (EvVisit (root ++ x)) s))
      as (rs & Hb & Hso & Hf).
    + intros Hwf. apply wf_dir in Hwf as [Hnd _]. split.
      * apply StronglySorted_merge_sort; [exact name_le_trans|exact name_le_total].
      * rewrite (Permutation_map node_name (ReadDir_perm (map view kids))), map_name_view.
        exact Hnd.
    + apply List.Forall_forall. intros c Hin s1.
      apply (Permutation_in _ (ReadDir_perm _)), in_map_iff in Hin as (c0 & <- & Hin).
      rewrite List.Forall_forall in IHkids.
      destruct (IHkids c0 Hin (x ++ [node_name c0]) s1) as (rs & Hb & Hso & Hf).
      exists rs. rewrite node_name_view, <- app_assoc. split; [exact Hb|]. split.
      * intros Hwf. apply wf_dir in Hwf as [_ Hall]. rewrite List.Forall_forall in Hall.
        exact (Hso (Hall c0 Hin)).
      * eapply List.Forall_impl; [|exact Hf]. intros rec (r & nm' & fd' & Hr & Hreach & Hfrom).
        exists r. rewrite <- app_assoc in Hr. split; [exact Hr|]. exists nm', fd'.
        split; assumption.
    + exists rs. split; [exact Hb|]. split; [exact Hso|].
      eapply List.Forall_impl; [|exact Hf].
      intros rec (c & r & Hin & Hr & nm' & fd' & Hreach & Hfrom).
      exists (node_name c :: r), nm', fd'. split; [exact Hr|]. split; [|exact Hfrom].
      apply reach_child; assumption.
Qed.

Lemma reach_view_inv (cfg : Config) (n : node) (r : path) (m : node) :
  reach cfg n r m -> forall t, n = view t -> exists m0, reach cfg t r m0 /\ m = view m0.
Proof.
  induction 1 as [n|nm ok kids c r m Hnot Hin Hr IH]; intros t Ht.
  - exists t. split; [constructor|exact Ht].
  - destruct t as [nm0 fd0|nm0 ok0 kids0]; cbn [view] in Ht; [discriminate|].
    injection Ht as -> -> ->.
    apply (Permutation_in _ (ReadDir_perm _)), in_map_iff in Hin as (c0 & <- & Hin).
    destruct (IH c0 eq_refl) as (m0 & Hr0 & ->).
    exists m0. split; [|reflexivity]. rewrite node_name_view.
    apply reach_child; assumption.
Qed.

Lemma reach_view_file (cfg : Config) (t : node) (r : path) (nm : string) (fd : FileData) :
  reach cfg (view t) r (File nm fd) -> reach cfg t r (File nm fd).
Proof.
  intros H. destruct (reach_view_inv _ _ _ _ H t eq_refl) as ([nm0 fd0|nm0 ok0 kids0] & Hr & Heq);
    cbn [view] in Heq; [|discriminate].
  injection Heq as -> ->. exact Hr.
Qed.

Lemma main_records (projectType : string) (env : DetectEnv) (createOk : bool)
    (root : path) (t : node) (devOk : bool) (pc : ProjectConfig) (s : State) :
  loadConfig projectType env = Some pc ->
  main projectType env createOk root (Some t) devOk = Completed s ->
  (wf t -> StronglySorted path_lt (map relativePath (bundled s))) /\
  Forall (fun rec => exists nm fd, reach (resolveConfig pc) t (relativePath rec) (File nm fd) /\
                                   bundled_from (resolveConfig pc) nm fd rec) (bundled s).
Proof.
  intros Hcfg Hrun. pose proof (main_completed _ _ _ _ _ _ _ _ Hcfg Hrun) as Hw.
  destruct (walkDir_recs (resolveConfig pc) root t [] (emptyState (newWriter devOk)))
    as (rs & Hb & Hso & Hf).
  rewrite app_nil_r, Hw in Hb. cbn [fst bundled emptyState app] in Hb. subst rs.
  split; [exact Hso|].
  eapply List.Forall_impl; [|exact Hf]. intros rec (r & nm & fd & Hr & Hreach & Hfrom).
  exists nm, fd. rewrite Hr. split; [exact (reach_view_file _ _ _ _ _ Hreach)|exact Hfrom].
Qed.

(** On a run that completes, the records come out in strictly increasing
    lexical order of their relative paths, element by element, so no file
    is bundled twice. *)
Theorem records_in_path_order (projectType : string) (env : DetectEnv) (createOk : bool)
    (root : path) (t : node) (devOk : bool) (s : State)
    (Hwf : wf t)
    (Hrun : main projectType env createOk root (Some t) devOk = Completed s) :
  StronglySorted path_lt (map relativePath (bundled s)) /\
  NoDup (map relativePath (bundled s)).
Proof.
  destruct (loadConfig projectType env) as [pc|] eqn:Hcfg;
    [|unfold main in Hrun; rewrite Hcfg in Hrun; discriminate].
  destruct (main_records _ _ _ _ _ _ _ _ Hcfg Hrun) as [Hso _].
  split; [exact (Hso Hwf)|].
  apply (StronglySorted_NoDup_irrefl path_lt); [apply path_lt_irrefl|exact (Hso Hwf)].
Qed.

(** Every record of a completed run comes from a file the walk reaches at
    its relative path: a file that passed the extension and name filter
    and that the detector judged text, with its whole content and the
    language [langOf] gives it. *)
Theorem records_come_from_text_files (projectType : string) (env : DetectEnv)
    (createOk : bool) (root : path) (t : node) (devOk : bool) (pc : ProjectConfig)
    (s : State) (rec : BundleRecord)
    (Hcfg : loadConfig projectType env = Some pc)
    (Hrun : main projectType env createOk root (Some t) devOk = Completed s)
    (Hin : In rec (bundled s)) :
  exists nm fd, reach (resolveConfig pc) t (relativePath rec) (File nm fd) /\
    bundled_from (resolveConfig pc) nm fd rec.
Proof.
  destruct (main_records _ _ _ _ _ _ _ _ Hcfg Hrun) as [_ Hf].
  rewrite List.Forall_forall in Hf. exact (Hf rec Hin).
Qed.

Definition vendorRun : State :=
  fst (WalkDir (resolveConfig (preset "go")) [] (Some vendorTree) (newWriter true)).

(** A tree whose directories store their entries out of order, with
    text files at two depths. *)
Definition orderTree : node :=
  Dir "proj" true
    [File "z.go" textFile;
     Dir "pkg" true [File "b.go" textFile; File "a.go" textFile];
     File "main.go" textFile].

Definition orderRun : State :=
  fst (WalkDir (resolveConfig (preset "go")) [] (Some orderTree) (newWriter true)).

Lemma records_in_path_order_witness :
  wf orderTree /\ main "go" vendorEnv true [] (Some orderTree) true = Completed orderRun /\
  map relativePath (bundled orderRun) =
    [["main.go"]; ["pkg"; "a.go"]; ["pkg"; "b.go"]; ["z.go"]] /\
  StronglySorted path_lt [["main.go"]; ["pkg"; "a.go"]; ["pkg"; "b.go"]; ["z.go"]] /\
  NoDup [["main.go"]; ["pkg"; "a.go"]; ["pkg"; "b.go"]; ["z.go"]].
Proof.
  assert (Hwf : wf orderTree) by (vm_compute; reflexivity).
  assert (Hrun : main "go" vendorEnv true [] (Some orderTree) true = Completed orderRun)
    by (vm_compute; reflexivity).
  assert (Hmap : map relativePath (bundled orderRun) =
                 [["main.go"]; ["pkg"; "a.go"]; ["pkg"; "b.go"]; ["z.go"]])
    by (vm_compute; reflexivity).
  destruct (records_in_path_order "go" vendorEnv true [] orderTree true _ Hwf Hrun)
    as [Hso Hnd].
  rewrite Hmap in Hso, Hnd.
  split; [exact Hwf|]. split; [exact Hrun|]. split; [exact Hmap|].
  split; [exact Hso|exact Hnd].
Defined.

Lemma records_come_from_text_files_witness :
  loadConfig "go" vendorEnv = Some (preset "go") /\
  main "go" vendorEnv true [] (Some vendorTree) true = Completed vendorRun /\
  In {| relativePath := ["a.go"]; languageTag := "go"; content := [x61; x62; x0a] |}
     (bundled vendorRun) /\
  exists nm fd, reach (resolveConfig (preset "go")) vendorTree ["a.go"] (File nm fd) /\
    bundled_from (resolveConfig (preset "go")) nm fd
      {| relativePath := ["a.go"]; languageTag := "go"; content := [x61; x62; x0a] |}.
Proof.
  assert (Hcfg : loadConfig "go" vendorEnv = Some (preset "go")) by (vm_compute; reflexivity).
  assert (Hrun : main "go" vendorEnv true [] (Some vendorTree) true = Completed vendorRun)
    by (vm_compute; reflexivity).
  assert (Hin : In {| relativePath := ["a.go"]; languageTag := "go"; content := [x61; x62; x0a] |}
                   (bundled vendorRun)) by (vm_compute; left; reflexivity).
  split; [exact Hcfg|]. split; [exact Hrun|]. split; [exact Hin|].
  exact (records_come_from_text_files "go" vendorEnv true [] vendorTree true _ _ _ Hcfg Hrun Hin).
Defined.

(** ** The skip ledger *)

Lemma ledger_ok_appendSkip (reason : string) (p : path) (s : State) :
  In reason skipReasons -> ledger_ok s -> ledger_ok (appendSkip reason p s).
Proof.
  intros Hr Hs. unfold ledger_ok, appendSkip. cbn [skippedFiles].
  apply map_Forall_insert_2; [|exact Hs]. split; [exact Hr|].
  intros H. apply app_eq_nil in H as [_ H]. discriminate.
Qed.

Lemma ledger_ok_emit (e : Event) (s : State) : ledger_ok s -> ledger_ok (emit e s).
Proof. intros H. exact H. Qed.

Lemma ledger_ok_setWriter (w : Writer) (s : State) : ledger_ok s -> ledger_ok (setWriter w s).
Proof. intros H. exact H. Qed.

Lemma ledger_ok_addRecord (r : BundleRecord) (s : State) : ledger_ok s -> ledger_ok (addRecord r s).
Proof. intros H. exact H. Qed.

Ltac ledger_ok_steps :=
  repeat first
    [ assumption
    | apply ledger_ok_appendSkip; [cbn [skipReasons In]; tauto|]
    | apply ledger_ok_emit
    | apply ledger_ok_setWriter
    | apply ledger_ok_addRecord ].

Lemma visitFile_ledger_ok (cfg : Config) (root p : path) (name : string) (fd : FileData)
    (s : State) :
  ledger_ok s -> ledger_ok (fst (visitFile cfg root p name fd s)).
Proof.
  intros Hs. unfold visitFile.
  destruct (Contains _ _ || Contains _ _); [ledger_ok_steps|].
  destruct (isBinaryFile fd) as [[|]|]; cbn [fst]; [ledger_ok_steps| |ledger_ok_steps].
  destruct (os_ReadFile fd) as [content|]; [|ledger_ok_steps].
  destruct (writer_Write _ _) as [w1 []]; cbn [negb fst]; [|ledger_ok_steps].
  destruct (writer_Write w1 _) as [w2 []]; cbn [negb fst]; [|ledger_ok_steps].
  destruct (writer_Write w2 _) as [w3 []]; cbn [negb fst]; ledger_ok_steps.
Qed.

Lemma walkEntries_ledger_ok (walk : path -> node -> State -> State * option WalkErr)
    (p : path) (l : list node) :
  Forall (fun c => forall q s, ledger_ok s -> ledger_ok (fst (walk q c s))) l ->
  forall s, ledger_ok s -> ledger_ok (fst (walkEntries walk p l s)).
Proof.
  induction 1 as [|c l Hc Hl IH]; intros s Hs; cbn [walkEntries]; [exact Hs|].
  pose proof (Hc (p ++ [node_name c]) s Hs) as H1.
  destruct (walk (p ++ [node_name c]) c s) as [s1 [e|]]; cbn [fst] in H1 |- *.
  - exact H1.
  - exact (IH s1 H1).
Qed.

Lemma walkDir_ledger_ok (cfg : Config) (root : path) :
  forall n p s, ledger_ok s -> ledger_ok (fst (walkDir cfg root p n s)).
Proof.
  induction n as [nm fd|nm ok kids IHkids] using node_ind'; intros p s Hs; cbn [walkDir].
  - apply visitFile_ledger_ok. exact Hs.
  - destruct (Contains _ nm); [ledger_ok_steps|].
    destruct ok; cbn [negb fst]; [|ledger_ok_steps].
    apply walkEntries_ledger_ok; [|exact Hs].
    apply List.Forall_forall. intros c Hin q s1.
    rewrite List.Forall_forall in IHkids. apply IHkids, Hin.
Qed.

(** After a completed run every reason in the ledger is one of the four
    reasons of the callback, and lists at least one path: the report never
    prints a reason without paths. *)
Theorem completed_ledger_reasons (projectType : string) (env : DetectEnv)
    (createOk : bool) (root : path) (t : node) (devOk : bool) (s : State)
    (Hrun : main projectType env createOk root (Some t) devOk = Completed s) :
  forall reason ps, skippedFiles s !! reason = Some ps ->
    In reason skipReasons /\ ps <> [].
Proof.
  destruct (loadConfig projectType env) as [pc|] eqn:Hcfg;
    [|unfold main in Hrun; rewrite Hcfg in Hrun; discriminate].
  pose proof (main_completed _ _ _ _ _ _ _ _ Hcfg Hrun) as Hw.
  pose proof (walkDir_ledger_ok (resolveConfig pc) root (view t) root
                (emptyState (newWriter devOk)) (map_Forall_empty _)) as Hok.
  rewrite Hw in Hok. cbn [fst] in Hok.
  intros reason ps Hps. exact (map_Forall_lookup_1 _ _ _ _ Hok Hps).
Qed.

Lemma completed_ledger_reasons_witness :
  main "go" vendorEnv true [] (Some vendorTree) true = Completed vendorRun /\
  skippedFiles vendorRun !! "Ignored Directory" = Some [[".git"]; ["vendor"]] /\
  In "Ignored Directory" skipReasons /\ [[".git"]; ["vendor"]] <> [].
Proof.
  assert (Hrun : main "go" vendorEnv true [] (Some vendorTree) true = Completed vendorRun)
    by (vm_compute; reflexivity).
  assert (Hl : skippedFiles vendorRun !! "Ignored Directory" = Some [[".git"]; ["vendor"]])
    by (vm_compute; reflexivity).
  split; [exact Hrun|]. split; [exact Hl|].
  exact (completed_ledger_reasons "go" vendorEnv true [] vendorTree true _ Hrun _ _ Hl).
Defined.

(** ** The skipped-files report *)

(** The report says "No files were skipped." exactly when the ledger is
    empty. *)
Theorem report_none_iff_empty (skipped : gmap string (list path))
    (order : list (string * list path)) :
  In ("No files were skipped." ++ nl)%string (reportLines true skipped order) <->
  skipped = ∅.
Proof.
  unfold reportLines. cbn [negb].
  destruct (size skipped =? 0)%nat eqn:Hs.
  - apply Nat.eqb_eq, map_size_empty_iff in Hs.
    split; [intros _; exact Hs|intros _]. right. left. reflexivity.
  - split; [|intros ->; rewrite map_size_empty in Hs; discriminate].
    intros H. exfalso. cbn [app] in H.
    destruct H as [H|H]; [apply (f_equal (String.get 0)) in H; cbn in H; discriminate|].
    apply in_app_or in H as [H|[H|[]]].
    + apply in_flat_map in H as ([reason paths] & _ & H). destruct H as [H|H].
      * apply (f_equal (String.get 0)) in H. cbn in H. discriminate.
      * apply in_map_iff in H as (p & H & _).
        apply (f_equal (String.get 0)) in H. cbn in H. discriminate.
    + apply (f_equal (String.get 0)) in H. cbn in H. discriminate.
Qed.

(** Each reason of the ledger is printed once its turn comes in the map
    order, directly followed by its paths in the order they were recorded. *)
Theorem report_lists_reason_paths (skipped : gmap string (list path))
    (order : list (string * list path)) (reason : string) (ps : list path)
    (Horder : Permutation order (map_to_list skipped))
    (Hps : skipped !! reason = Some ps) :
  exists pre post,
    reportLines true skipped order =
      pre ++ ((nl ++ "Reason: " ++ reason ++ nl)%string ::
              map (fun p => ("  - " ++ pathString p ++ nl)%string) ps) ++ post.
Proof.
  assert (Hsize : size skipped <> 0%nat).
  { intros H. apply map_size_empty_iff in H. rewrite H, lookup_empty in Hps. discriminate. }
  assert (Hin : In (reason, ps) order).
  { apply (Permutation_in _ (Permutation_sym Horder)), list_elem_of_In.
    apply elem_of_map_to_list. exact Hps. }
  apply in_split in Hin as (o1 & o2 & ->).
  unfold reportLines. cbn [negb]. apply Nat.eqb_neq in Hsize. rewrite Hsize.
  rewrite flat_map_app. cbn [flat_map].
  set (f := fun '(reason, paths) =>
              (nl ++ "Reason: " ++ reason ++ nl)%string ::
              map (fun p => ("  - " ++ pathString p ++ nl)%string) (paths : list path)).
  exists ([(nl ++ "--- Skipped Files Report ---" ++ nl)%string] ++ flat_map f o1).
  exists (flat_map f o2 ++ [("--------------------------" ++ nl)%string]).
  rewrite <- !app_assoc. reflexivity.
Qed.

Lemma report_lists_reason_paths_witness :
  Permutation (map_to_list (skippedFiles vendorRun)) (map_to_list (skippedFiles vendorRun)) /\
  skippedFiles vendorRun !! "Ignored Directory" = Some [[".git"]; ["vendor"]] /\
  exists pre post,
    reportLines true (skippedFiles vendorRun) (map_to_list (skippedFiles vendorRun)) =
      pre ++ ((nl ++ "Reason: " ++ "Ignored Directory" ++ nl)%string ::
              map (fun p => ("  - " ++ pathString p ++ nl)%string) [[".git"]; ["vendor"]]) ++ post.
Proof.
  assert (Hl : skippedFiles vendorRun !! "Ignored Directory" = Some [[".git"]; ["vendor"]])
    by (vm_compute; reflexivity).
  split; [reflexivity|]. split; [exact Hl|].
  exact (report_lists_reason_paths _ _ _ _ (Permutation_refl _) Hl).
Defined.

(** ** The list of available types *)

(** [main] stops with "Invalid project type" exactly when the resolved
    type is not among [availableTypes], the list the message prints. *)
Theorem invalid_type_iff_unlisted (order : list (string * ProjectConfig))
    (Horder : Permutation order (map_to_list projectConfigs))
    (projectType : string) (env : DetectEnv) (createOk : bool) (root : path)
    (tree : option node) (devOk : bool) :
  (exists t, main projectType env createOk root tree devOk = Fatal (InvalidProjectType t)) <->
  ~ In (finalProjectType projectType env) (availableTypes order).
Proof.
  assert (Hin : forall t, In t (availableTypes order) <-> is_Some (projectConfigs !! t)).
  { unfold availableTypes. intros t. split.
    - intros H. apply in_map_iff in H as ([t' pc] & <- & H).
      apply (Permutation_in _ Horder), list_elem_of_In, elem_of_map_to_list in H.
      exists pc. exact H.
    - intros [pc H]. apply in_map_iff. exists (t, pc). split; [reflexivity|].
      apply (Permutation_in _ (Permutation_sym Horder)), list_elem_of_In, elem_of_map_to_list.
      exact H. }
  unfold main, loadConfig.
  destruct (projectConfigs !! finalProjectType projectType env) as [pc|] eqn:E.
  - split.
    + intros (t & H). destruct createOk; cbn [negb] in H; [|discriminate].
      destruct (WalkDir _ _ _ _) as [? [?|]]; discriminate.
    + intros Hn. exfalso. apply Hn, Hin. exists pc. exact E.
  - split.
    + intros _ Hn. apply Hin in Hn as [pc Hn]. congruence.
    + intros _. eexists. reflexivity.
Qed.

Lemma invalid_type_iff_unlisted_witness :
  Permutation (map_to_list projectConfigs) (map_to_list projectConfigs) /\
  ~ In "python" (availableTypes (map_to_list projectConfigs)) /\
  exists t, main "python" vendorEnv true [] None true = Fatal (InvalidProjectType t).
Proof.
  assert (Hn : ~ In "python" (availableTypes (map_to_list projectConfigs))).
  { intros H. vm_compute in H. repeat (destruct H as [H|H]; [discriminate|]). exact H. }
  split; [reflexivity|]. split; [exact Hn|].
  apply (invalid_type_iff_unlisted _ (Permutation_refl _) "python" vendorEnv true [] None true).
  exact Hn.
Defined.

(** ** A source path that is a regular file *)

(** When [-src] names a regular file that passes the filters, the run
    bundles that one file, under the relative path "." (the header reads
    "File: /."), and records nothing in the ledger. *)
Theorem source_file_bundled_as_dot (projectType : string) (env : DetectEnv) (root : path)
    (nm : string) (fd : FileData) (pc : ProjectConfig) (bs : list byte)
    (Hcfg : loadConfig projectType env = Some pc)
    (Hext : ~ In (filepath_Ext nm) (IgnoreExts pc)) (Hname : ~ In nm (IgnoreExts pc))
    (Hbin : isBinaryFile fd = IOOk false) (Hread : os_ReadFile fd = IOOk bs) :
  exists s, main projectType env true root (Some (File nm fd)) true = Completed s /\
    bundled s = [{| relativePath := [];
                    languageTag := langOf (langMap (resolveConfig pc)) (filepath_Ext nm) nm;
                    content := bs |}] /\
    skippedFiles s = ∅ /\
    header [] (langOf (langMap (resolveConfig pc)) (filepath_Ext nm) nm) =
      ("File: /." ++ nl ++ "```" ++
       langOf (langMap (resolveConfig pc)) (filepath_Ext nm) nm ++ nl)%string.
Proof.
  assert (H1 : Contains (ignoreExts (resolveConfig pc)) (filepath_Ext nm) = false).
  { apply bool_decide_eq_false_2. cbn [resolveConfig ignoreExts].
    rewrite newStringSet_elem. exact Hext. }
  assert (H2 : Contains (ignoreExts (resolveConfig pc)) nm = false).
  { apply bool_decide_eq_false_2. cbn [resolveConfig ignoreExts].
    rewrite newStringSet_elem. exact Hname. }
  assert (HR : filepath_Rel root root = Some []).
  { unfold filepath_Rel.
    rewrite bool_decide_eq_true_2 by (exists []; rewrite app_nil_r; reflexivity).
    rewrite drop_all. reflexivity. }
  unfold main. rewrite Hcfg. cbn [negb]. unfold WalkDir. cbn [view walkDir].
  unfold visitFile. rewrite H1, H2, Hbin, Hread, HR. cbn [orb].
  assert (Hh : healthy (writer (emit (EvReadFile root) (emit (EvOpen root)
                 (emit (EvVisit root) (emptyState (newWriter true))))))) by (split; reflexivity).
  set (lang := langOf (langMap (resolveConfig pc)) (filepath_Ext nm) nm).
  set (s0 := emit (EvReadFile root) (emit (EvOpen root) (emit (EvVisit root)
               (emptyState (newWriter true))))) in *.
  pose proof (writer_Write_healthy (writer s0) (String.length (header [] lang)) Hh) as [Hh1 E1].
  destruct (writer_Write (writer s0) _) as [w1 ok1]. cbn [snd fst] in E1, Hh1. subst ok1.
  pose proof (writer_Write_healthy w1 (List.length bs) Hh1) as [Hh2 E2].
  destruct (writer_Write w1 _) as [w2 ok2]. cbn [snd fst] in E2, Hh2. subst ok2.
  pose proof (writer_Write_healthy w2 (String.length footer) Hh2) as [Hh3 E3].
  destruct (writer_Write w2 _) as [w3 ok3]. cbn [snd fst] in E3, Hh3. subst ok3.
  cbn [negb]. eexists. split; [reflexivity|].
  split; [reflexivity|]. split; reflexivity.
Qed.

Lemma source_file_bundled_as_dot_witness :
  loadConfig "go" vendorEnv = Some (preset "go") /\
  exists s, main "go" vendorEnv true ["main.go"] (Some (File "main.go" textFile)) true =
              Completed s /\
    bundled s = [{| relativePath := []; languageTag := "go"; content := [x61; x62; x0a] |}].
Proof.
  assert (Hcfg : loadConfig "go" vendorEnv = Some (preset "go")) by (vm_compute; reflexivity).
  split; [exact Hcfg|].
  destruct (source_file_bundled_as_dot "go" vendorEnv ["main.go"] "main.go" textFile
              (preset "go") [x61; x62; x0a] Hcfg) as (s & Hrun & Hb & _).
  - intros H. vm_compute in H. repeat (destruct H as [H|H]; [discriminate|]). exact H.
  - intros H. vm_compute in H. repeat (destruct H as [H|H]; [discriminate|]). exact H.
  - reflexivity.
  - reflexivity.
  - exists s. split; [exact Hrun|]. rewrite Hb. reflexivity.
Defined.

(** ** Fatal conditions of a run *)

(** C5 (amended): a run ends in a fatal error only for an unknown project
    type or a failed creation of the output before the walk, and, once the
    walk has begun, for a failed [os.Lstat] of the root, a failed listing
    of a directory the walk entered (no directory on the way to it, nor
    the directory itself, is ignored), or a failed write to the output.
    Per-file read failures are never fatal. Conversely, an unknown type,
    a failed creation of the output and a failed [os.Lstat] of the root
    are each fatal. *)
Theorem fatal_conditions (projectType : string) (env : DetectEnv) (createOk : bool)
    (root : path) (tree : option node) (devOk : bool) :
  (forall e, main projectType env createOk root tree devOk = Fatal e ->
    (e = InvalidProjectType (finalProjectType projectType env) /\
       loadConfig projectType env = None) \/
    (e = CreateOutputFailed /\ createOk = false) \/
    (e = WalkFailed ErrLstat /\ tree = None) \/
    (exists pc t r nm kids, loadConfig projectType env = Some pc /\ tree = Some t /\
       e = WalkFailed (ErrReadDir (root ++ r)) /\
       reach (resolveConfig pc) t r (Dir nm false kids) /\
       nm ∉ ignoreDirs (resolveConfig pc)) \/
    (e = WalkFailed ErrWrite /\ devOk = false)) /\
  (loadConfig projectType env = None ->
     main projectType env createOk root tree devOk =
       Fatal (InvalidProjectType (finalProjectType projectType env))) /\
  (loadConfig projectType env <> None -> createOk = false ->
     main projectType env createOk root tree devOk = Fatal CreateOutputFailed) /\
  (loadConfig projectType env <> None -> createOk = true -> tree = None ->
     main projectType env createOk root tree devOk = Fatal (WalkFailed ErrLstat)).
Proof.
  split; [|split; [|split]].
  - intros e Hfatal. unfold main in Hfatal.
    destruct (loadConfig projectType env) as [pc|] eqn:Hcfg.
    2:{ left. injection Hfatal as <-. split; reflexivity. }
    destruct createOk; cbn [negb] in Hfatal.
    2:{ right; left. injection Hfatal as <-. split; reflexivity. }
    unfold WalkDir in Hfatal. destruct tree as [t|].
    2:{ right; right; left. injection Hfatal as <-. split; reflexivity. }
    destruct (walkDir (resolveConfig pc) root root (view t) (emptyState (newWriter devOk)))
      as [s' [err|]] eqn:Hw; [|discriminate].
    injection Hfatal as <-.
    destruct (walkDir_err _ _ _ _ _ _ _ Hw) as [(r & nm & kids & -> & Hat & Hni)| ->].
    + right; right; right; left.
      destruct (reach_view_inv _ _ _ _ Hat t eq_refl)
        as ([nm0 fd0|nm0 ok0 kids0] & Hr & Heq); cbn [view] in Heq; [discriminate|].
      injection Heq as <- <- _.
      exists pc, t, r, nm, kids0. split; [reflexivity|]. split; [reflexivity|].
      split; [reflexivity|]. split; [exact Hr|exact Hni].
    + right; right; right; right. split; [reflexivity|].
      destruct devOk; [|reflexivity]. exfalso.
      destruct (walkDir_healthy (resolveConfig pc) root (view t) root
                  (emptyState (newWriter true))) as [_ H]; [split; reflexivity|].
      rewrite Hw in H. apply H. reflexivity.
  - intros Hcfg. unfold main. rewrite Hcfg. reflexivity.
  - intros Hcfg Hc. unfold main. destruct (loadConfig projectType env); [|congruence].
    subst createOk. reflexivity.
  - intros Hcfg Hc Ht. unfold main. destruct (loadConfig projectType env); [|congruence].
    subst createOk tree. reflexivity.
Qed.

(** A tree whose subdirectory "pkg" cannot be listed. *)
Definition lockedTree : node :=
  Dir "proj" true [File "a.go" textFile; Dir "pkg" false [File "b.go" textFile]].

Lemma fatal_conditions_witness :
  main "go" vendorEnv true [] (Some bigTree) false = Fatal (WalkFailed ErrWrite) /\
  (WalkFailed ErrWrite = WalkFailed ErrWrite /\ false = false) /\
  main "go" vendorEnv true [] (Some lockedTree) true =
    Fatal (WalkFailed (ErrReadDir ["pkg"])) /\
  reach (resolveConfig (preset "go")) lockedTree ["pkg"] (Dir "pkg" false [File "b.go" textFile]) /\
  loadConfig "cobol" vendorEnv = None /\
  main "cobol" vendorEnv true [] (Some lockedTree) true =
    Fatal (InvalidProjectType (finalProjectType "cobol" vendorEnv)).
Proof.
  assert (Hrun : main "go" vendorEnv true [] (Some bigTree) false =
                 Fatal (WalkFailed ErrWrite)) by (vm_compute; reflexivity).
  assert (Hlock : main "go" vendorEnv true [] (Some lockedTree) true =
                  Fatal (WalkFailed (ErrReadDir ["pkg"]))) by (vm_compute; reflexivity).
  assert (Hcobol : loadConfig "cobol" vendorEnv = None) by (vm_compute; reflexivity).
  split; [exact Hrun|]. split.
  { destruct (proj1 (fatal_conditions "go" vendorEnv true [] (Some bigTree) false)
                (WalkFailed ErrWrite) Hrun)
      as [[H _]|[[H _]|[[H _]|[(pc & t & r & nm & kids & _ & _ & H & _)|H]]]];
      try discriminate H; exact H. }
  split; [exact Hlock|]. split.
  { change ["pkg"] with [node_name (Dir "pkg" false [File "b.go" textFile])].
    apply reach_child; [|right; left; reflexivity|constructor].
    intros H. apply (bool_decide_eq_false_1 _ (eq_refl : Contains
      (ignoreDirs (resolveConfig (preset "go"))) "proj" = false)). exact H. }
  split; [exact Hcobol|].
  exact (proj1 (proj2 (fatal_conditions "cobol" vendorEnv true [] (Some lockedTree) true))
           Hcobol).
Defined.
